(** * Session reconciliation and route guarding of the Storiesbyfoot site

    A shallow embedding of [src/context/AuthContext.tsx] (the Session
    Reconciler: [AuthProvider] with its [onAuthStateChange] handler,
    [initializeAuth], [fetchUserProfile], [login], [signup], [logout],
    [refreshUser]) and of the copies of [ProtectedRoute] (the Route Guard).

    The TypeScript code is asynchronous.  An [async] function is embedded as
    a finite resumption tree ([Async]): synchronous effects on the React
    state ([setUser], [setSession], [setIsLoading], console output), remote
    calls at which the function suspends ([await supabase...]), microtask
    boundaries ([await] of a local promise) and thrown exceptions.  Two
    interpreters give it meaning:
    - [run], which plays one call to its end against an oracle answering
      every remote call (used for the properties of a single call);
    - [step] / [exec], an event loop holding a pool of suspended calls, in
      which the environment chooses which suspended call is resumed next and
      with which outcome (used for the properties about interleavings). *)

From stdpp Require Import base list strings.
From Stdlib Require Import Bool Ascii.

Open Scope string_scope.
Open Scope list_scope.

(** ** Data model *)

Module Data.

(** [export type User] of [src/lib/supabase.ts].  The [role] column is
    typed ['admin' | 'user'] but arrives from the database through the
    unchecked cast [data as User]; it is kept as the string it is. *)
Record User : Type := mkUser {
  id : string;
  email : string;
  fullName : string;
  role : string;
  isActive : bool;
  canWriteTestimonial : bool;
  createdAt : string;
  updatedAt : string
}.

(** The identity provider's user, carried by a session. *)
Record AuthUser : Type := mkAuthUser {
  uid : string;
  auth_email : option string
}.

(** [Session] of [@supabase/supabase-js]: the parts the code reads. *)
Record Session : Type := mkSession {
  session_user : AuthUser;
  access_token : string
}.

(** The three [useState] cells of [AuthProvider]. *)
Record AuthState : Type := mkAuthState {
  user : option User;
  session : option Session;
  isLoading : bool
}.

(** [useState(null)], [useState(null)], [useState(true)]. *)
Definition initialState : AuthState :=
  {| user := None; session := None; isLoading := true |}.

(** [PostgrestError]: the error object of a profile store answer. *)
Record PostgrestError : Type := mkPgError {
  code : string;
  message : string;
  details : string;
  hint : string
}.

(** [AuthError]: the error object of the identity provider. *)
Record AuthError : Type := mkAuthError {
  auth_message : string;
  auth_code : string
}.

(** A JavaScript value that was thrown.  The values are data: none of
    their properties or methods runs code of its own, so that only the
    conversions of the language can fail on them.
    - [ErrorInstance]: an [Error] instance;
    - [ThrownPostgrest]: the error object of the profile store, thrown as
      it is (a plain object);
    - [ThrownValue shown]: any other value that [String()] converts, to
      the text [shown];
    - [Unprintable complaint stack]: a value that is not an [Error] and
      that [String()] cannot convert (an object without [toString] and
      [valueOf], such as [Object.create(null)]); the conversion throws a
      [TypeError] with that message and that stack;
    - [Unserializable e complaint stack]: the value [e] when it holds what
      [JSON.stringify] refuses (a property that leads back to the value, a
      [BigInt]); [JSON.stringify] throws a [TypeError] with that message
      and that stack, and everything else reads as on [e]. *)
Inductive Thrown : Type :=
| ErrorInstance (name msg stack : string)
| ThrownPostgrest (e : PostgrestError)
| ThrownValue (shown : string)
| Unprintable (complaint stack : string)
| Unserializable (e : Thrown) (complaint stack : string).

(** What a failed conversion throws. *)
Definition TypeError (complaint stack : string) : Thrown :=
  ErrorInstance "TypeError" complaint stack.

(** [error instanceof Error ? error.message : undefined]. *)
Fixpoint error_message (error : Thrown) : option string :=
  match error with
  | ErrorInstance _ msg _ => Some msg
  | Unserializable e _ _ => error_message e
  | _ => None
  end.

(** [error instanceof Error]. *)
Definition instanceofError (error : Thrown) : bool :=
  match error_message error with
  | Some _ => true
  | None => false
  end.

(** [error instanceof Error ? error.message : String(error)]: the text
    (left), or what the conversion throws (right). *)
Fixpoint message_of (error : Thrown) : string + Thrown :=
  match error with
  | ErrorInstance _ msg _ => inl msg
  | ThrownPostgrest _ => inl "[object Object]"
  | ThrownValue shown => inl shown
  | Unprintable complaint stack => inr (TypeError complaint stack)
  | Unserializable e _ _ => message_of e
  end.

(** [JSON.stringify(error, null, 2)]: what it throws, if it does. *)
Definition stringify (error : Thrown) : option Thrown :=
  match error with
  | Unserializable _ complaint stack => Some (TypeError complaint stack)
  | _ => None
  end.

(** The conversion to text succeeds. *)
Definition printable (error : Thrown) : bool :=
  match message_of error with
  | inl _ => true
  | inr _ => false
  end.

(** [JSON.stringify] succeeds as well. *)
Definition serializable (error : Thrown) : bool :=
  match stringify error with
  | None => true
  | Some _ => false
  end.

(** The object literal that [signup] inserts into the [users] table. *)
Record NewUserRow : Type := mkRow {
  row_id : string;
  row_email : string;
  row_fullName : string;
  row_role : string;
  row_isActive : bool;
  row_canWriteTestimonial : bool
}.

(** JavaScript's [s || d] on a string: the empty string is falsy (and so
    is a field that is missing at run time, which reads as no text). *)
Definition or_else (s d : string) : string :=
  if String.eqb s "" then d else s.

(** The event names of [onAuthStateChange]. *)
Inductive AuthChangeEvent : Type :=
| INITIAL_SESSION | SIGNED_IN | SIGNED_OUT | TOKEN_REFRESHED | USER_UPDATED
| PASSWORD_RECOVERY.

End Data.
Export Data.

(** ** Remote calls and their answers *)

Module Remote.

(** The requests the reconciler sends to the identity provider and to the
    profile store. *)
Inductive Call : Type :=
| GetSession
| SelectUserSingle (userId : string)
| SignInWithPassword (email password : string)
| SignUp (email password : string)
| InsertUser (row : NewUserRow)
| SignOut.

(** [{ data, error }] of [.from('users').select('*').eq('id', _).single()]. *)
Record SingleResponse : Type := mkSingle {
  single_data : option User;
  single_error : option PostgrestError
}.

(** [{ data: { session }, error }] of [signInWithPassword]. *)
Record SignInResponse : Type := mkSignIn {
  signin_session : option Session;
  signin_error : option AuthError
}.

(** [{ data: { user }, error }] of [signUp]. *)
Record SignUpResponse : Type := mkSignUp {
  signup_user : option AuthUser;
  signup_error : option AuthError
}.

(** The type of the value a call resolves to. *)
Definition answer (c : Call) : Type :=
  match c with
  | GetSession => option Session
  | SelectUserSingle _ => SingleResponse
  | SignInWithPassword _ _ => SignInResponse
  | SignUp _ _ => SignUpResponse
  | InsertUser _ => option PostgrestError
  | SignOut => option AuthError
  end.

(** A promise settles: it is fulfilled with a value or rejected with a
    thrown value. *)
Inductive Settled (X : Type) : Type :=
| Fulfilled (x : X)
| Rejected (e : Thrown).
Arguments Fulfilled {X} x.
Arguments Rejected {X} e.

End Remote.
Export Remote.

(** ** Asynchronous functions as resumption trees *)

Module Async.

Inductive Level : Type := LOG | WARN | ERROR.

(** The synchronous effects of the reconciler. *)
Inductive Action : Type :=
| SetUser (u : option User)
| SetSession (s : option Session)
| SetIsLoading (b : bool)
| Console (l : Level) (text : string).

(** The body of an [async] function returning [R]. *)
Inductive Async (R : Type) : Type :=
| Return (r : R)
| Throw (e : Thrown)
| Do (a : Action) (k : Async R)
| Await (c : Call) (k : Settled (answer c) -> Async R)
| Yield (k : Async R).
Arguments Return {R} r.
Arguments Throw {R} e.
Arguments Do {R} a k.
Arguments Await {R} c k.
Arguments Yield {R} k.

(** Sequencing. *)
Fixpoint bind {A B : Type} (p : Async A) (f : A -> Async B) : Async B :=
  match p with
  | Return r => f r
  | Throw e => Throw e
  | Do a k => Do a (bind k f)
  | Await c k => Await c (fun s => bind (k s) f)
  | Yield k => Yield (bind k f)
  end.

(** [try { p } catch (error) { h error }]. *)
Fixpoint try_catch {R : Type} (p : Async R) (h : Thrown -> Async R) : Async R :=
  match p with
  | Return r => Return r
  | Throw e => h e
  | Do a k => Do a (try_catch k h)
  | Await c k => Await c (fun s => try_catch (k s) h)
  | Yield k => Yield (try_catch k h)
  end.

(** [try { p } finally { f }]: [f] runs on both exits of [p]; the result
    or the exception of [p] is kept unless [f] itself throws. *)
Fixpoint finally {R : Type} (p : Async R) (f : Async unit) : Async R :=
  match p with
  | Return r => bind f (fun _ => Return r)
  | Throw e => bind f (fun _ => Throw e)
  | Do a k => Do a (finally k f)
  | Await c k => Await c (fun s => finally (k s) f)
  | Yield k => Yield (finally k f)
  end.

(** [await supabase.<call>]: a rejected promise is thrown at the [await]. *)
Definition await_call {R : Type} (c : Call) (k : answer c -> Async R) : Async R :=
  Await c (fun s => match s with
                    | Fulfilled x => k x
                    | Rejected e => Throw e
                    end).

(** [await f(...)] for a local [async] function [f]: the body of [f] runs,
    and the caller resumes on a later microtask with the result or the
    exception of [f]. *)
Fixpoint await_async {R : Type} (p : Async R) : Async R :=
  match p with
  | Return r => Yield (Return r)
  | Throw e => Yield (Throw e)
  | Do a k => Do a (await_async k)
  | Await c k => Await c (fun s => await_async (k s))
  | Yield k => Yield (await_async k)
  end.

(** [const errorMessage = error instanceof Error ? error.message :
    String(error)] at the head of a [catch] block: the block goes on with
    the text, unless the conversion throws. *)
Definition read_message {R : Type} (error : Thrown) (k : string -> Async R)
  : Async R :=
  match message_of error with
  | inl text => k text
  | inr thrown => Throw thrown
  end.

(** [JSON.stringify(error, null, 2)] as an argument: the statement that
    holds it goes on, unless the call throws. *)
Definition json_stringify {R : Type} (error : Thrown) (k : Async R) : Async R :=
  match stringify error with
  | None => k
  | Some thrown => Throw thrown
  end.

End Async.
Export Async.

Declare Scope async_scope.
Delimit Scope async_scope with async.
Notation "a ;; k" := (Do a k)
  (at level 100, k at level 200, right associativity) : async_scope.
Notation "x <- 'await' c ;; k" := (await_call c (fun x => k))
  (at level 100, c at next level, k at level 200, right associativity) : async_scope.
Open Scope async_scope.

(** ** The Session Reconciler ([src/context/AuthContext.tsx]) *)

Module AuthContext.

(** [if (error instanceof Error) console.error(label, error.stack)]. *)
Definition log_stack {R : Type} (label : string) (error : Thrown) (k : Async R)
  : Async R :=
  if instanceofError error then Console ERROR label ;; k else k.

(** [fetchUserProfile], lines 91-159. *)
Definition fetchUserProfile (userId : string) : Async unit :=
  try_catch
    (Console LOG "[Auth] Fetching profile for user:" ;;
     r <- await (SelectUserSingle userId) ;;
     match single_error r with
     | Some error =>
         let errorCode := or_else (code error) "UNKNOWN" in
         Console WARN "[Auth] Error fetching user profile:" ;;
         if String.eqb errorCode "PGRST116" then
           Console WARN "[Auth] User profile not found in database (PGRST116). User may not have completed setup." ;;
           SetUser None ;;
           Return tt
         else if String.eqb errorCode "42501" then
           Console ERROR "[Auth] RLS Policy Denied (42501): Cannot fetch user profile. Check RLS policies on users table." ;;
           SetUser None ;;
           Return tt
         else
           Console ERROR "[Auth] Unexpected error fetching profile. Code:" ;;
           SetUser None ;;
           Return tt
     | None =>
         match single_data r with
         | None =>
             Console WARN "[Auth] Profile fetch returned null data" ;;
             SetUser None ;;
             Return tt
         | Some data =>
             Console LOG "[Auth] Profile fetched successfully:" ;;
             SetUser (Some data) ;;
             Return tt
         end
     end)
    (fun error =>
       read_message error (fun errorMessage =>
       Console ERROR "[Auth] Exception while fetching user profile:" ;;
       log_stack "[Auth] Error stack:" error
         (SetUser None ;;
          Return tt))).

(** [initializeAuth], lines 29-42. *)
Definition initializeAuth : Async unit :=
  finally
    (try_catch
       (data <- await GetSession ;;
        SetSession data ;;
        match data with
        | Some s => await_async (fetchUserProfile (uid (session_user s)))
        | None => Return tt
        end)
       (fun error =>
          Console ERROR "Error initializing auth:" ;;
          Return tt))
    (SetIsLoading false ;;
     Return tt).

(** The callback given to [supabase.auth.onAuthStateChange], lines 47-84. *)
Definition onAuthStateChange (event : AuthChangeEvent) (session : option Session)
  : Async unit :=
  Console LOG "[Auth] Auth state changed:" ;;
  finally
    (try_catch
       (SetSession session ;;
        match session with
        | Some s =>
            SetIsLoading true ;;
            Console LOG "[Auth] Session exists, fetching profile for user:" ;;
            await_async (fetchUserProfile (uid (session_user s)))
        | None =>
            Console LOG "[Auth] No session, clearing user" ;;
            SetUser None ;;
            Return tt
        end)
       (fun error =>
          read_message error (fun errorMessage =>
          Console ERROR "[Auth] Error in onAuthStateChange handler:" ;;
          log_stack "[Auth] Stack trace:" error
            (SetUser None ;;
             Return tt))))
    (Console LOG "[Auth] Setting isLoading to false" ;;
     SetIsLoading false ;;
     Return tt).

(** [login], lines 161-195; the result is the [error] field of the
    returned object, [None] for [{ error: null }]. *)
Definition login (email password : string) : Async (option string) :=
  try_catch
    (Console LOG "[Auth] Login attempt for:" ;;
     r <- await (SignInWithPassword email password) ;;
     match signin_error r with
     | Some error =>
         let errorMessage := or_else (auth_message error) "Unknown error" in
         Console ERROR "[Auth] Login failed:" ;;
         Return (Some errorMessage)
     | None =>
         match signin_session r with
         | None =>
             Console ERROR "[Auth] Login succeeded but no session/user returned" ;;
             Return (Some "Login succeeded but session was not created")
         | Some s =>
             Console LOG "[Auth] Login successful, session created:" ;;
             Return None
         end
     end)
    (fun error =>
       read_message error (fun errorMessage =>
       Console ERROR "[Auth] Unexpected error during login:" ;;
       Return (Some "An unexpected error occurred"))).

(** [signup], lines 197-225. *)
Definition signup (email password fullName : string) : Async (option string) :=
  try_catch
    (authData <- await (SignUp email password) ;;
     match signup_error authData with
     | Some authError => Return (Some (auth_message authError))
     | None =>
         match signup_user authData with
         | None => Return (Some "Failed to create user")
         | Some u =>
             profileError <- await (InsertUser
               {| row_id := uid u;
                  row_email := email;
                  row_fullName := fullName;
                  row_role := "user";
                  row_isActive := true;
                  row_canWriteTestimonial := false |}) ;;
             match profileError with
             | Some e => Return (Some (message e))
             | None => Return None
             end
         end
     end)
    (fun error => Return (Some "An unexpected error occurred")).

(** [logout], lines 227-246. *)
Definition logout : Async unit :=
  try_catch
    (Console LOG "[Auth] Logging out" ;;
     _ <- await SignOut ;;
     SetUser None ;;
     SetSession None ;;
     SetIsLoading false ;;
     Console LOG "[Auth] Logout successful" ;;
     Return tt)
    (fun error =>
       Console ERROR "[Auth] Error logging out:" ;;
       SetUser None ;;
       SetSession None ;;
       SetIsLoading false ;;
       Return tt).

(** [refreshUser], lines 300-304; [session] is the state cell the
    closure reads. *)
Definition refreshUser (session : option Session) : Async unit :=
  match session with
  | Some s => await_async (fetchUserProfile (uid (session_user s)))
  | None => Return tt
  end.

(** The derived fields of the context value, lines 310-311. *)
Definition isAuthenticated (st : AuthState) : bool :=
  match session st with Some _ => true | None => false end.

Definition isAdmin (st : AuthState) : bool :=
  match user st with
  | Some u => String.eqb (role u) "admin"
  | None => false
  end.

End AuthContext.
Export AuthContext.

(** The earlier revision of the reconciler kept in the repository
    ([src/unnamed/part_008]); its [fetchUserProfile] rethrows the errors it
    does not recognise into its own [catch]. *)
Module Superseded.

(** [fetchUserProfile], part_008 lines 86-151. *)
Definition fetchUserProfile (userId : string) : Async unit :=
  try_catch
    (Console LOG "[Auth] Fetching profile for user:" ;;
     r <- await (SelectUserSingle userId) ;;
     match single_error r with
     | Some error =>
         let errorCode := or_else (code error) "UNKNOWN" in
         if String.eqb errorCode "PGRST116" then
           Console WARN "[Auth] User profile not found in database. User may not be set up yet." ;;
           SetUser None ;;
           Return tt
         else if String.eqb errorCode "42501" then
           Console ERROR "[Auth] RLS Policy Denied: Cannot fetch user profile. Check RLS policies." ;;
           SetUser None ;;
           Return tt
         else
           Console ERROR "[Auth] Unexpected error fetching profile:" ;;
           Throw (ThrownPostgrest error)
     | None =>
         match single_data r with
         | None =>
             Console WARN "[Auth] Profile fetch returned null data" ;;
             SetUser None ;;
             Return tt
         | Some data =>
             Console LOG "[Auth] Profile fetched successfully:" ;;
             SetUser (Some data) ;;
             Return tt
         end
     end)
    (fun error =>
       read_message error (fun errorMessage =>
       Console ERROR "[Auth] Error fetching user profile:" ;;
       Console ERROR "  Message:" ;;
       Console ERROR "  Code:" ;;
       Console ERROR "  Status:" ;;
       Console ERROR "  Details:" ;;
       Console ERROR "  Hint:" ;;
       json_stringify error
         (Console ERROR "  Full Error:" ;;
          SetUser None ;;
          Return tt))).

End Superseded.

(** ** Running asynchronous functions *)

Module Runtime.

(** What an observer of the provider sees: the React state, the console
    and the remote requests sent so far (both oldest first). *)
Record World : Type := mkWorld {
  auth : AuthState;
  console : list (Level * string);
  requests : list Call
}.

Definition apply (a : Action) (w : World) : World :=
  match a with
  | SetUser u =>
      {| auth := {| user := u; session := session (auth w);
                    isLoading := isLoading (auth w) |};
         console := console w; requests := requests w |}
  | SetSession s =>
      {| auth := {| user := user (auth w); session := s;
                    isLoading := isLoading (auth w) |};
         console := console w; requests := requests w |}
  | SetIsLoading b =>
      {| auth := {| user := user (auth w); session := session (auth w);
                    isLoading := b |};
         console := console w; requests := requests w |}
  | Console l text =>
      {| auth := auth w; console := console w ++ [(l, text)];
         requests := requests w |}
  end.

Definition send (c : Call) (w : World) : World :=
  {| auth := auth w; console := console w; requests := requests w ++ [c] |}.

(** The environment of a single call: it settles every request. *)
Definition Oracle : Type := forall c : Call, Settled (answer c).

(** One call played to its end; the result is how its promise settles. *)
Fixpoint run {R : Type} (env : Oracle) (p : Async R) (w : World)
  : World * Settled R :=
  match p with
  | Return r => (w, Fulfilled r)
  | Throw e => (w, Rejected e)
  | Do a k => run env k (apply a w)
  | Await c k => run env (k (env c)) (send c w)
  | Yield k => run env k w
  end.

(** *** The event loop *)

Inductive TaskKind : Type :=
| Handler | Initialize | Logout | Login | Signup | RefreshUser.

Definition Task : Type := TaskKind * Async unit.

(** The pool of calls in flight; slot [i] belongs to the [i]-th call
    started, and is emptied when that call ends. *)
Record Sys : Type := mkSys {
  world : World;
  pool : list (option Task)
}.

(** What the environment hands to a suspended call. *)
Inductive Outcome : Type :=
| Tick
| GotSession (s : Settled (option Session))
| GotProfile (s : Settled SingleResponse)
| GotSignIn (s : Settled SignInResponse)
| GotSignUp (s : Settled SignUpResponse)
| GotInsert (s : Settled (option PostgrestError))
| GotSignOut (s : Settled (option AuthError)).

Definition fits (c : Call) (o : Outcome) : option (Settled (answer c)) :=
  match c return option (Settled (answer c)) with
  | GetSession => match o with GotSession s => Some s | _ => None end
  | SelectUserSingle _ => match o with GotProfile s => Some s | _ => None end
  | SignInWithPassword _ _ => match o with GotSignIn s => Some s | _ => None end
  | SignUp _ _ => match o with GotSignUp s => Some s | _ => None end
  | InsertUser _ => match o with GotInsert s => Some s | _ => None end
  | SignOut => match o with GotSignOut s => Some s | _ => None end
  end.

Inductive Input : Type :=
| Emit (event : AuthChangeEvent) (session : option Session)
| CallLogout
| CallLogin (email password : string)
| CallSignup (email password fullName : string)
| CallRefreshUser
| Resume (i : nat) (o : Outcome).

Inductive Status : Type :=
| Suspended
| Completed (k : TaskKind)
| Crashed (k : TaskKind) (e : Thrown).

(** JavaScript runs a call without interruption up to its next [await]. *)
Fixpoint advance (p : Async unit) (w : World) : World * Async unit :=
  match p with
  | Do a k => advance k (apply a w)
  | _ => (w, p)
  end.

(** Where a call stands after [advance]. *)
Definition park (kind : TaskKind) (wp : World * Async unit)
  : World * option Task * Status :=
  match wp with
  | (w, Return _) => (w, None, Completed kind)
  | (w, Throw e) => (w, None, Crashed kind e)
  | (w, Await c k) => (send c w, Some (kind, Await c k), Suspended)
  | (w, p) => (w, Some (kind, p), Suspended)
  end.

Definition launch (kind : TaskKind) (p : Async unit) (sys : Sys) : Sys * Status :=
  let '(w, slot, status) := park kind (advance p (world sys)) in
  ({| world := w; pool := pool sys ++ [slot] |}, status).

Definition continue (i : nat) (kind : TaskKind) (p : Async unit) (sys : Sys)
  : Sys * Status :=
  let '(w, slot, status) := park kind (advance p (world sys)) in
  ({| world := w; pool := <[i := slot]> (pool sys) |}, status).

Definition discard {R : Type} (p : Async R) : Async unit :=
  bind p (fun _ => Return tt).

Definition step (inp : Input) (sys : Sys) : option (Sys * Status) :=
  match inp with
  | Emit event s => Some (launch Handler (onAuthStateChange event s) sys)
  | CallLogout => Some (launch Logout logout sys)
  | CallLogin e p => Some (launch Login (discard (login e p)) sys)
  | CallSignup e p n => Some (launch Signup (discard (signup e p n)) sys)
  | CallRefreshUser =>
      Some (launch RefreshUser (refreshUser (session (auth (world sys)))) sys)
  | Resume i o =>
      match pool sys !! i with
      | Some (Some (kind, Await c k)) =>
          match fits c o with
          | Some s => Some (continue i kind (k s) sys)
          | None => None
          end
      | Some (Some (kind, Yield k)) =>
          match o with
          | Tick => Some (continue i kind k sys)
          | _ => None
          end
      | _ => None
      end
  end.

(** A schedule played from a state; [None] when the schedule resumes a
    call that is not suspended or with an answer of the wrong kind. *)
Fixpoint exec (inps : list Input) (sys : Sys) : option Sys :=
  match inps with
  | [] => Some sys
  | inp :: rest =>
      match step inp sys with
      | Some (sys', _) => exec rest sys'
      | None => None
      end
  end.

(** The provider right after it is mounted: the state cells hold their
    initial values and the effect has started [initializeAuth]. *)
Definition mounted : Sys :=
  fst (launch Initialize initializeAuth
         {| world := {| auth := initialState; console := []; requests := [] |};
            pool := [] |}).

(** No call is in flight. *)
Definition quiescent (sys : Sys) : Prop :=
  Forall (fun slot => slot = None) (pool sys).

Inductive reachable : Sys -> Prop :=
| reachable_mounted : reachable mounted
| reachable_step inp sys sys' status :
    reachable sys -> step inp sys = Some (sys', status) -> reachable sys'.

End Runtime.
Export Runtime.

(** ** The Route Guard ([ProtectedRoute]) *)

Module RouteGuard.

(** [requiredRole?: 'admin' | 'user']. *)
Inductive Role : Type := admin | user_role.

(** What the guard hands to React. *)
Inductive Element : Type :=
| Placeholder (caption : option string)
| Navigate (to : string) (replace : bool)
| Children.

(** The fields the guard takes from [useAuth()]. *)
Record AuthContextType : Type := mkContext {
  ctx_user : option User;
  ctx_isLoading : bool;
  ctx_isAuthenticated : bool;
  ctx_isAdmin : bool
}.

(** The context value [AuthProvider] publishes for a state. *)
Definition useAuth (st : AuthState) : AuthContextType :=
  {| ctx_user := user st;
     ctx_isLoading := isLoading st;
     ctx_isAuthenticated := isAuthenticated st;
     ctx_isAdmin := isAdmin st |}.

(** A render is followed through the conditions it evaluates and the
    lines it logs, in program order. *)
Inductive Probe : Type :=
| OnIsLoading | OnIsAuthenticated | OnRequiredRole | OnIsAdmin | OnUser.

Inductive Trace : Type :=
| Evaluated (p : Probe)
| Logged (text : string).

Definition Render : Type := list Trace -> Element * list Trace.

Definition render (e : Element) : Render := fun t => (e, t).

Definition log (text : string) (k : Render) : Render :=
  fun t => k (t ++ [Logged text])%list.

(** [if (b) { yes } no], where [b] reads the field [p]. *)
Definition test (p : Probe) (b : bool) (yes no : Render) : Render :=
  fun t => if b then yes (t ++ [Evaluated p])%list else no (t ++ [Evaluated p])%list.

(** [if (b1 && b2) { yes } no]: [b2] is read only when [b1] holds. *)
Definition test2 (p1 : Probe) (b1 : bool) (p2 : Probe) (b2 : bool)
    (yes no : Render) : Render :=
  test p1 b1 (test p2 b2 yes no) no.

Definition is_role (requiredRole : option Role) (r : Role) : bool :=
  match requiredRole, r with
  | Some admin, admin => true
  | Some user_role, user_role => true
  | _, _ => false
  end.

Definition present {A : Type} (x : option A) : bool :=
  match x with Some _ => true | None => false end.

Definition mounted_at (r : Render) : Element * list Trace := r [].

(** [src/unnamed/part_006]. *)
Module V6.
Definition ProtectedRoute (requiredRole : option Role) (ctx : AuthContextType)
  : Render :=
  test OnIsLoading (ctx_isLoading ctx)
    (render (Placeholder (Some "Verifying authentication...")))
  (test OnIsAuthenticated (negb (ctx_isAuthenticated ctx))
    (log "[ProtectedRoute] Not authenticated, redirecting to home"
      (render (Navigate "/" true)))
  (test2 OnRequiredRole (is_role requiredRole admin)
         OnIsAdmin (negb (ctx_isAdmin ctx))
    (log "[ProtectedRoute] Not admin, redirecting to home"
      (render (Navigate "/" true)))
  (test2 OnRequiredRole (is_role requiredRole user_role)
         OnIsAuthenticated (negb (ctx_isAuthenticated ctx))
    (log "[ProtectedRoute] User route but not authenticated"
      (render (Navigate "/" true)))
  (render Children)))).
End V6.

(** [src/unnamed/part_005]. *)
Module V5.
Definition ProtectedRoute (requiredRole : option Role) (ctx : AuthContextType)
  : Render :=
  test OnIsLoading (ctx_isLoading ctx)
    (render (Placeholder None))
  (test OnIsAuthenticated (negb (ctx_isAuthenticated ctx))
    (render (Navigate "/" true))
  (test2 OnRequiredRole (is_role requiredRole admin)
         OnIsAdmin (negb (ctx_isAdmin ctx))
    (render (Navigate "/" true))
  (test2 OnRequiredRole (is_role requiredRole user_role)
         OnIsAuthenticated (negb (ctx_isAuthenticated ctx))
    (render (Navigate "/" true))
  (render Children)))).
End V5.

(** [src/unnamed/part_004]: on a user route it waits for the profile. *)
Module V4.
Definition ProtectedRoute (requiredRole : option Role) (ctx : AuthContextType)
  : Render :=
  test OnIsLoading (ctx_isLoading ctx)
    (render (Placeholder None))
  (test OnIsAuthenticated (negb (ctx_isAuthenticated ctx))
    (render (Navigate "/" true))
  (test2 OnRequiredRole (is_role requiredRole admin)
         OnIsAdmin (negb (ctx_isAdmin ctx))
    (render (Navigate "/" true))
  (test2 OnRequiredRole (is_role requiredRole user_role)
         OnUser (negb (present (ctx_user ctx)))
    (render (Placeholder (Some "Setting up your account...")))
  (render Children)))).
End V4.

(** The conditions a render evaluated. *)
Definition probes (t : list Trace) : list Probe :=
  omap (fun x => match x with Evaluated p => Some p | Logged _ => None end) t.

End RouteGuard.
Export RouteGuard.

(** ** Shapes of asynchronous functions used by the proofs *)

Module Shape.

(** The promise of [p] is never rejected. *)
Fixpoint nothrow {R : Type} (p : Async R) : Prop :=
  match p with
  | Return _ => True
  | Throw _ => False
  | Do _ k => nothrow k
  | Await c k => forall s, nothrow (k s)
  | Yield k => nothrow k
  end.

(** Whatever [p] throws satisfies [P]. *)
Fixpoint raises (P : Thrown -> Prop) {R : Type} (p : Async R) : Prop :=
  match p with
  | Return _ => True
  | Throw e => P e
  | Do _ k => raises P k
  | Await c k => forall s, raises P (k s)
  | Yield k => raises P k
  end.

(** The values every [catch] block of the reconciler can take: both
    conversions succeed on them. *)
Definition tame (e : Thrown) : Prop :=
  printable e = true /\ serializable e = true.

(** [p] ends normally, and the last thing it wrote to [isLoading], in
    the stretch of code it runs last without suspending, is [false].
    [cleared] tells whether such a write has been made in the current
    stretch. *)
Fixpoint settles (cleared : bool) (p : Async unit) : Prop :=
  match p with
  | Return _ => cleared = true
  | Throw _ => False
  | Do a k =>
      settles (match a with SetIsLoading b => negb b | _ => cleared end) k
  | Await c k => forall s, settles false (k s)
  | Yield k => settles false k
  end.

(** [p] never writes [true] to [isLoading]. *)
Fixpoint calm {R : Type} (p : Async R) : Prop :=
  match p with
  | Return _ | Throw _ => True
  | Do a k => a <> SetIsLoading true /\ calm k
  | Await c k => forall s, calm (k s)
  | Yield k => calm k
  end.

(** [p] writes none of the three state cells. *)
Fixpoint stateless {R : Type} (p : Async R) : Prop :=
  match p with
  | Return _ | Throw _ => True
  | Do a k => (exists l text, a = Console l text) /\ stateless k
  | Await c k => forall s, stateless (k s)
  | Yield k => stateless k
  end.

(** The calls that own the loading flag. *)
Definition reconciling (kind : TaskKind) : bool :=
  match kind with
  | Handler | Initialize => true
  | _ => false
  end.

(** The calls whose promise is never rejected; [login] and [refreshUser]
    reject when their [catch] block cannot convert what it caught. *)
Definition steady (kind : TaskKind) : bool :=
  match kind with
  | Login | RefreshUser => false
  | _ => true
  end.

(** What the event loop relies on for a call of each kind. *)
Definition guarded (t : Task) : Prop :=
  (steady (fst t) = true -> nothrow (snd t)) /\
  if reconciling (fst t) then settles false (snd t) else calm (snd t).

(** The invariant of the event loop. *)
Definition invariant (sys : Sys) : Prop :=
  (forall i t, pool sys !! i = Some (Some t) -> guarded t) /\
  (isLoading (auth (world sys)) = true ->
   exists i t, pool sys !! i = Some (Some t) /\ reconciling (fst t) = true).

End Shape.
Export Shape.

(** ** How [fetchUserProfile] sorts the answers of the profile store *)

Module Classification.

Inductive Failure : Type :=
| UnexpectedCode
| NullData
| Exception.

Inductive ProfileOutcome : Type :=
| Found (u : User)
| NotFound
| PermissionDenied
| OtherFailure (f : Failure).

(** The branch of [fetchUserProfile] (lines 102-158) an answer takes. *)
Definition classify (s : Settled SingleResponse) : ProfileOutcome :=
  match s with
  | Rejected _ => OtherFailure Exception
  | Fulfilled r =>
      match single_error r with
      | Some error =>
          let errorCode := or_else (code error) "UNKNOWN" in
          if String.eqb errorCode "PGRST116" then NotFound
          else if String.eqb errorCode "42501" then PermissionDenied
          else OtherFailure UnexpectedCode
      | None =>
          match single_data r with
          | Some data => Found data
          | None => OtherFailure NullData
          end
      end
  end.

Definition profile_of (o : ProfileOutcome) : option User :=
  match o with
  | Found u => Some u
  | _ => None
  end.

(** The console line that tells the branches apart. *)
Definition verdict_line (o : ProfileOutcome) : Level * string :=
  match o with
  | Found _ => (LOG, "[Auth] Profile fetched successfully:")
  | NotFound =>
      (WARN, "[Auth] User profile not found in database (PGRST116). User may not have completed setup.")
  | PermissionDenied =>
      (ERROR, "[Auth] RLS Policy Denied (42501): Cannot fetch user profile. Check RLS policies on users table.")
  | OtherFailure UnexpectedCode =>
      (ERROR, "[Auth] Unexpected error fetching profile. Code:")
  | OtherFailure NullData => (WARN, "[Auth] Profile fetch returned null data")
  | OtherFailure Exception =>
      (ERROR, "[Auth] Exception while fetching user profile:")
  end.

End Classification.
Export Classification.

(** ** Schedules *)

Module Schedule.

(** A schedule written for a pool that starts empty, moved behind [n]
    slots that are already taken. *)
Definition shift (n : nat) (inp : Input) : Input :=
  match inp with
  | Resume i o => Resume (i + n) o
  | other => other
  end.

(** The same calls in flight, behind the slots [before]. *)
Definition graft (before : list (option Task)) (sys : Sys) : Sys :=
  {| world := world sys; pool := before ++ pool sys |}.

Definition fresh (w : World) : Sys := {| world := w; pool := [] |}.

(** All the ways of merging two sequences, each keeping its order. *)
Fixpoint interleave {A : Type} (l1 : list A) : list A -> list (list A) :=
  fix merge (l2 : list A) : list (list A) :=
    match l1, l2 with
    | [], _ => [l2]
    | _, [] => [l1]
    | x :: l1', y :: l2' =>
        map (cons x) (interleave l1' l2) ++ map (cons y) (merge l2')
    end.

(** A fetch rejected with a value that the [catch] of [fetchUserProfile]
    cannot convert: [fetchUserProfile] then writes nothing, and it is the
    handler, resumed after it, that writes the null profile. *)
Definition writes_late (r : Settled SingleResponse) : bool :=
  match r with
  | Rejected e => negb (printable e)
  | Fulfilled _ => false
  end.

(** The answer of the fetch whose handler wrote [user] last: a handler
    writes in the turn of its answer, or in the turn after it when it
    [writes_late]; [late] holds the slots that wait for such a turn. *)
Fixpoint last_written (late : list (nat * Settled SingleResponse))
    (inps : list Input) (last : option (Settled SingleResponse))
  : option (Settled SingleResponse) :=
  match inps with
  | [] => last
  | Resume i (GotProfile r) :: rest =>
      if writes_late r then last_written ((i, r) :: late) rest last
      else last_written late rest (Some r)
  | Resume i Tick :: rest =>
      match find (fun slot => Nat.eqb (fst slot) i) late with
      | Some (_, r) => last_written late rest (Some r)
      | None => last_written late rest last
      end
  | _ :: rest => last_written late rest last
  end.

(** The answer given to the profile fetch that is resumed last. *)
Fixpoint last_profile (inps : list Input) : option (Settled SingleResponse) :=
  match inps with
  | [] => None
  | inp :: rest =>
      match last_profile rest with
      | Some r => Some r
      | None =>
          match inp with
          | Resume _ (GotProfile r) => Some r
          | _ => None
          end
      end
  end.

Definition final_auth (o : option Sys) : option AuthState :=
  match o with
  | Some sys => Some (auth (world sys))
  | None => None
  end.

End Schedule.
Export Schedule.

(** ** Sample data *)

Module Sample.

Definition alice : User :=
  {| id := "u-a"; email := "a@x.com"; fullName := "Alice"; role := "admin";
     isActive := true; canWriteTestimonial := false;
     createdAt := "2024-01-01"; updatedAt := "2024-01-01" |}.

Definition bob : User :=
  {| id := "u-b"; email := "b@x.com"; fullName := "Bob"; role := "user";
     isActive := true; canWriteTestimonial := false;
     createdAt := "2024-01-02"; updatedAt := "2024-01-02" |}.

Definition sessionA : Session :=
  {| session_user := {| uid := "u-a"; auth_email := Some "a@x.com" |};
     access_token := "token-a" |}.

Definition sessionB : Session :=
  {| session_user := {| uid := "u-b"; auth_email := Some "b@x.com" |};
     access_token := "token-b" |}.

Definition row (u : User) : Settled SingleResponse :=
  Fulfilled {| single_data := Some u; single_error := None |}.

Definition blank : World :=
  {| auth := initialState; console := []; requests := [] |}.

Definition signed_in : World :=
  {| auth := {| user := Some alice; session := Some sessionA; isLoading := false |};
     console := []; requests := [] |}.

Definition network_down : Thrown :=
  ErrorInstance "TypeError" "Failed to fetch" "".


(** A value without [toString] and [valueOf], [Object.create(null)], with
    the message and the first line of the stack of the [TypeError] that V8
    throws when asked for its text. *)
Definition bare_object : Thrown :=
  Unprintable "Cannot convert object to primitive value"
    "TypeError: Cannot convert object to primitive value".

(** The [BigInt] [10n], with the [TypeError] of V8's [JSON.stringify]. *)
Definition big_number : Thrown :=
  Unserializable (ThrownValue "10") "Do not know how to serialize a BigInt"
    "TypeError: Do not know how to serialize a BigInt".

(** As [all_good], but every request rejects with [thrown]. *)
Definition rejecting (thrown : Thrown) : Oracle :=
  fun c =>
    match c return Settled (answer c) with
    | GetSession => Rejected thrown
    | SelectUserSingle _ => Rejected thrown
    | SignInWithPassword _ _ => Rejected thrown
    | SignUp _ _ => Rejected thrown
    | InsertUser _ => Rejected thrown
    | SignOut => Rejected thrown
    end.

(** The provider once [initializeAuth] has found no stored session. *)
Definition idle : option Sys :=
  exec [Resume 0 (GotSession (Fulfilled None))] mounted.

Definition from_idle (inps : list Input) : option Sys :=
  match idle with
  | Some sys => exec inps sys
  | None => None
  end.

End Sample.
Export Sample.

(** ** What a suspended handler still has to do *)

Module Pending.

(** The last stretch of the handler: it has [isLoading] left to clear
    and, when [late], the null profile left to write. *)
Definition finishing (late : bool) (c : Async unit) : Prop :=
  forall w, exists w',
    advance c w = (w', Return tt)
    /\ auth w' = {| user := if late then None else user (auth w);
                    session := session (auth w);
                    isLoading := false |}.

(** A handler suspended at its profile fetch: when the answer [r] comes
    it writes the profile [r] stands for, unless [r] is of those that let
    [fetchUserProfile] reject, and yields before [finishing]. *)
Definition fetching (k : Settled SingleResponse -> Async unit) : Prop :=
  forall r w, exists w' c,
    advance (k r) w = (w', Yield c)
    /\ auth w' = {| user := if writes_late r then user (auth w)
                            else profile_of (classify r);
                    session := session (auth w);
                    isLoading := isLoading (auth w) |}
    /\ finishing (writes_late r) c.

End Pending.
Export Pending.

(** ** The earlier revision of the handler and of [login] (part_008) *)

Module Revision008.

(** The callback given to [supabase.auth.onAuthStateChange], part_008
    lines 47-79. *)
Definition onAuthStateChange (event : AuthChangeEvent) (session : option Session)
  : Async unit :=
  Console LOG "[Auth] Auth state changed:" ;;
  finally
    (try_catch
       (SetSession session ;;
        match session with
        | Some s =>
            SetIsLoading true ;;
            Console LOG "[Auth] Session exists, fetching profile..." ;;
            await_async (Superseded.fetchUserProfile (uid (session_user s)))
        | None =>
            Console LOG "[Auth] No session, clearing user" ;;
            SetUser None ;;
            Return tt
        end)
       (fun error =>
          read_message error (fun errorMessage =>
          Console ERROR "[Auth] Error in onAuthStateChange handler:" ;;
          Console ERROR "  Message:" ;;
          Console ERROR "  Code:" ;;
          json_stringify error
            (Console ERROR "  Full Error:" ;;
             SetUser None ;;
             Return tt))))
    (Console LOG "[Auth] Setting isLoading to false" ;;
     SetIsLoading false ;;
     Return tt).

(** [login], part_008 lines 153-194.  Its [catch] builds [errorDetails]
    before it logs: [Object.keys(error || {})], which accepts every value,
    and [JSON.stringify(error, null, 2)]. *)
Definition login (email password : string) : Async (option string) :=
  try_catch
    (Console LOG "[Auth] Login attempt for:" ;;
     r <- await (SignInWithPassword email password) ;;
     match signin_error r with
     | Some error =>
         let errorMessage := or_else (auth_message error) "Unknown error" in
         Console ERROR "[Auth] Login failed:" ;;
         Return (Some errorMessage)
     | None =>
         match signin_session r with
         | None =>
             Console ERROR "[Auth] Login succeeded but no session/user returned" ;;
             Return (Some "Login succeeded but session was not created")
         | Some s =>
             Console LOG "[Auth] Login successful, session created:" ;;
             Return None
         end
     end)
    (fun error =>
       read_message error (fun errorMessage =>
       json_stringify error
         (Console ERROR "[Auth] Unexpected error during login:" ;;
          Return (Some (or_else errorMessage
                    "An unexpected error occurred. Check browser console for details."))))).

End Revision008.

(** ** Password recovery ([sendOTP], [verifyOTP], [resetPassword]) *)

Module Recovery.

(** The requests of the recovery flow; each answers [{ error }]. *)
Inductive Request : Type :=
| SignInWithOtp (email : string) (shouldCreateUser : bool)
| VerifyOtp (email token kind : string)
| UpdateUser (password : string)
| ResetPasswordForEmail (email redirectTo : string).

Definition Provider : Type := Request -> Settled (option AuthError).

(** These functions touch no state cell: a computation sends requests to
    the provider, in order, and settles. *)
Definition Remote (A : Type) : Type :=
  Provider -> list Request -> list Request * Settled A.

Definition pure {A : Type} (a : A) : Remote A :=
  fun _ sent => (sent, Fulfilled a).

Definition seq {A B : Type} (m : Remote A) (f : A -> Remote B) : Remote B :=
  fun env sent =>
    match m env sent with
    | (sent', Fulfilled a) => f a env sent'
    | (sent', Rejected e) => (sent', Rejected e)
    end.

(** [await supabase.auth.<request>]. *)
Definition call (r : Request) : Remote (option AuthError) :=
  fun env sent => (sent ++ [r], env r).

(** [try { m } catch (error) { h error }]. *)
Definition catch {A : Type} (m : Remote A) (h : Thrown -> Remote A) : Remote A :=
  fun env sent =>
    match m env sent with
    | (sent', Rejected e) => h e env sent'
    | done => done
    end.

Definition perform {A : Type} (m : Remote A) (env : Provider)
  : list Request * Settled A :=
  m env [].

(** [sendOTP], lines 248-262. *)
Definition sendOTP (email : string) : Remote (option string) :=
  catch
    (seq (call (SignInWithOtp email false)) (fun error =>
     match error with
     | Some e => pure (Some (auth_message e))
     | None => pure None
     end))
    (fun _ => pure (Some "Failed to send OTP")).

(** [verifyOTP], lines 264-285. *)
Definition verifyOTP (email token newPassword : string) : Remote (option string) :=
  catch
    (seq (call (VerifyOtp email token "recovery")) (fun verifyError =>
     match verifyError with
     | Some e => pure (Some (auth_message e))
     | None =>
         seq (call (UpdateUser newPassword)) (fun updateError =>
         match updateError with
         | Some e => pure (Some (auth_message e))
         | None => pure None
         end)
     end))
    (fun _ => pure (Some "Failed to verify OTP")).

(** [resetPassword], lines 287-298; [origin] is [window.location.origin]. *)
Definition resetPassword (origin email : string) : Remote (option string) :=
  catch
    (seq (call (ResetPasswordForEmail email (origin ++ "/reset-password")%string))
       (fun error =>
        match error with
        | Some e => pure (Some (auth_message e))
        | None => pure None
        end))
    (fun _ => pure (Some "Failed to reset password")).

End Recovery.

(** ** [getSessionUser]: a display name out of the session's e-mail *)

(** A string stands for the sequence of its code units.  [split],
    [charAt] and [slice] go by code units and are embedded as they are.
    [toUpperCase] and [trim] go by the tables of Unicode, which are not
    part of the repository: they are taken as parameters, and what is
    known of them is what they do on the text of ASCII. *)
Module SessionName.

(** [s.split(sep)] for a one-character separator. *)
Fixpoint split_on (sep : ascii) (s : string) : list string :=
  match s with
  | EmptyString => [EmptyString]
  | String c rest =>
      if Ascii.eqb c sep then EmptyString :: split_on sep rest
      else match split_on sep rest with
           | piece :: pieces => String c piece :: pieces
           | [] => [String c EmptyString]
           end
  end.

(** [s.charAt(0)] and [s.slice(1)]. *)
Definition charAt0 (s : string) : string :=
  match s with
  | EmptyString => EmptyString
  | String c _ => String c EmptyString
  end.

Definition slice1 (s : string) : string :=
  match s with
  | EmptyString => EmptyString
  | String _ rest => rest
  end.

Record SessionUser : Type := mkSessionUser {
  su_id : string;
  su_email : string;
  su_fullName : string
}.

Section Engine.

(** [String.prototype.toUpperCase] and [String.prototype.trim]. *)
Variable toUpperCase : string -> string.
Variable trim : string -> string.

(** [part?.charAt(0).toUpperCase() + part?.slice(1) || ''], where [part]
    is [emailParts[i]]: for a missing part the sum is [NaN], which is
    falsy. *)
Definition capitalised (part : option string) : string :=
  match part with
  | Some p => or_else (toUpperCase (charAt0 p) ++ slice1 p)%string ""
  | None => ""
  end.

(** [getSessionUser], lines 335-349. *)
Definition getSessionUser (session : option Session) : option SessionUser :=
  match session with
  | None => None
  | Some s =>
      match auth_email (session_user s) with
      | None => None
      | Some email =>
          if String.eqb email "" then None
          else
            let emailParts := split_on "." (hd "" (split_on "@" email)) in
            let firstName := capitalised (emailParts !! 0%nat) in
            let lastName := capitalised (emailParts !! 1%nat) in
            let fullName :=
              or_else (trim (firstName ++ " " ++ lastName)%string) email in
            Some {| su_id := uid (session_user s);
                    su_email := email;
                    su_fullName := fullName |}
      end
  end.

End Engine.

(** *** The two methods on the text of ASCII *)

(** Every character of [s] satisfies [P]. *)
Fixpoint every (P : ascii -> Prop) (s : string) : Prop :=
  match s with
  | EmptyString => True
  | String c rest => P c /\ every P rest
  end.

(** The code units of ASCII, and the text made of them. *)
Definition is_ascii (c : ascii) : bool := (Ascii.nat_of_ascii c <? 128)%nat.

Definition ascii_text (s : string) : Prop := every (fun c => is_ascii c = true) s.

(** Upper case within ASCII: the letters [a]-[z] move to [A]-[Z], every
    other character stays. *)
Definition ascii_upper (c : ascii) : ascii :=
  let n := Ascii.nat_of_ascii c in
  if (97 <=? n)%nat && (n <=? 122)%nat then Ascii.ascii_of_nat (n - 32) else c.

Fixpoint ascii_toUpperCase (s : string) : string :=
  match s with
  | EmptyString => EmptyString
  | String c rest => String (ascii_upper c) (ascii_toUpperCase rest)
  end.

(** The white space of ASCII: tab, line feed, vertical tab, form feed,
    carriage return and space. *)
Definition ascii_space (c : ascii) : bool :=
  let n := Ascii.nat_of_ascii c in
  ((9 <=? n)%nat && (n <=? 13)%nat) || (n =? 32)%nat.

Fixpoint ascii_trimStart (s : string) : string :=
  match s with
  | EmptyString => EmptyString
  | String c rest => if ascii_space c then ascii_trimStart rest else s
  end.

Fixpoint ascii_trimEnd (s : string) : string :=
  match s with
  | EmptyString => EmptyString
  | String c rest =>
      match ascii_trimEnd rest with
      | EmptyString => if ascii_space c then EmptyString else String c EmptyString
      | kept => String c kept
      end
  end.

Definition ascii_trim (s : string) : string := ascii_trimEnd (ascii_trimStart s).

(** What is known of the engine: on the text of ASCII its [toUpperCase]
    and [trim] are the two functions above. *)
Definition ascii_methods (toUpperCase trim : string -> string) : Prop :=
  (forall s, ascii_text s -> toUpperCase s = ascii_toUpperCase s)
  /\ (forall s, ascii_text s -> trim s = ascii_trim s).

(** A name part as people type it: ASCII with no dot, no at-sign and no
    white space. *)
Definition plain (s : string) : Prop :=
  every (fun c => c <> "."%char /\ c <> "@"%char /\ ascii_space c = false
                  /\ is_ascii c = true) s.

End SessionName.

(** ** The callers of the context: redirect hook, routes and dashboards *)

Module Pages.

(** What a [useEffect] of a hook asks the router to do. *)
Inductive HookEffect : Type :=
| Idle
| Redirect (logline path : string) (replace : bool).

(** [useAuthRedirect], [src/hooks/useAuthRedirect.ts] lines 9-28: it waits
    for the profile. *)
Definition useAuthRedirect (ctx : AuthContextType) : HookEffect :=
  if ctx_isLoading ctx then Idle
  else if present (ctx_user ctx) then
    if ctx_isAdmin ctx then
      Redirect "[useAuthRedirect] Redirecting admin to admin dashboard"
        "/admin-dashboard" true
    else
      Redirect "[useAuthRedirect] Redirecting user to user dashboard"
        "/user-dashboard" true
  else Idle.

(** The other copy of [useAuthRedirect], [src/hooks/useAuth.ts] lines
    137-158: it goes by the session. *)
Definition useAuthRedirect_bySession (ctx : AuthContextType) : HookEffect :=
  if ctx_isLoading ctx then Idle
  else if ctx_isAuthenticated ctx then
    if ctx_isAdmin ctx then
      Redirect "[useAuthRedirect] Redirecting admin to admin dashboard"
        "/admin-dashboard" true
    else
      Redirect "[useAuthRedirect] Redirecting user to user dashboard"
        "/user-dashboard" true
  else Idle.

(** What the mount effect of a page does. *)
Inductive PageEffect : Type :=
| Nothing
| Leave (href : string)
| Fetch.

(** The effect of [UserDashboard], [src/pages/UserDashboard.tsx] lines
    39-50. *)
Definition UserDashboard_effect (ctx : AuthContextType) : PageEffect :=
  if ctx_isLoading ctx then Nothing
  else if negb (present (ctx_user ctx)) then Leave "/"
  else Fetch.

(** The effect of [AdminDashboard], [src/lib/supabase.ts] lines 141-152. *)
Definition AdminDashboard_effect (ctx : AuthContextType) : PageEffect :=
  if ctx_isLoading ctx then Nothing
  else if negb (ctx_isAdmin ctx) then Leave "/"
  else Fetch.

Inductive Page : Type := AdminDashboard | UserDashboard.

(** The two guarded routes of [src/App.tsx], lines 47-62. *)
Definition routes (path : string) : option (Role * Page) :=
  if String.eqb path "/admin-dashboard" then Some (admin, AdminDashboard)
  else if String.eqb path "/user-dashboard" then Some (user_role, UserDashboard)
  else None.

Definition page_effect (page : Page) (ctx : AuthContextType) : PageEffect :=
  match page with
  | AdminDashboard => AdminDashboard_effect ctx
  | UserDashboard => UserDashboard_effect ctx
  end.

(** What a visitor of a guarded path gets: what the guard renders and,
    when it renders the page, what the page's effect does. *)
Definition visit (guard : option Role -> AuthContextType -> Render)
    (path : string) (ctx : AuthContextType) : option (Element * option PageEffect) :=
  match routes path with
  | Some (requiredRole, page) =>
      match fst (mounted_at (guard (Some requiredRole) ctx)) with
      | Children => Some (Children, Some (page_effect page ctx))
      | other => Some (other, None)
      end
  | None => None
  end.

(** The form of [UserDashboard]. *)
Record FormData : Type := mkForm {
  form_name : string;
  form_role : string;
  form_location : string;
  form_trip : string;
  form_quote : string;
  form_highlight : string;
  form_rating : nat
}.

(** The row [handleSubmit] inserts into [testimonials]. *)
Record TestimonialRow : Type := mkTestimonial {
  t_userId : string;
  t_name : string;
  t_role : string;
  t_location : string;
  t_trip : string;
  t_quote : string;
  t_highlight : string;
  t_rating : nat;
  t_isPublished : bool
}.

Inductive Submission : Type :=
| Refused (toast : string)
| InsertTestimonial (row : TestimonialRow).

Definition blank_field (s : string) : bool := String.eqb s "".

(** [handleSubmit] of [UserDashboard], lines 73-102: the checks it makes
    before it sends anything, and the row it then sends. *)
Definition handleSubmit (user : option User) (formData : FormData) : Submission :=
  match user with
  | None => Refused "You must be logged in to submit a testimonial"
  | Some u =>
      if negb (canWriteTestimonial u) then
        Refused "Your account is not enabled to write testimonials yet. Please contact the admin."
      else if blank_field (form_quote formData) || blank_field (form_trip formData)
              || blank_field (form_role formData)
              || blank_field (form_location formData) then
        Refused "Please fill in all required fields"
      else
        InsertTestimonial
          {| t_userId := id u;
             t_name := form_name formData;
             t_role := form_role formData;
             t_location := form_location formData;
             t_trip := form_trip formData;
             t_quote := form_quote formData;
             t_highlight := form_highlight formData;
             t_rating := form_rating formData;
             t_isPublished := false |}
  end.

End Pages.

(** ** Roles and approval ([firestore] service and [authHelpers]) *)

Module Roles.

(** [USER_ROLES] and [APPROVAL_STATUS], [src/services/firebaseAuth.ts]
    lines 238-253. *)
Definition USER : string := "user".
Definition CONTENT_CREATOR : string := "content_creator".
Definition MODERATOR : string := "moderator".
Definition ADMIN : string := "admin".

Definition PENDING : string := "pending".
Definition APPROVED : string := "approved".
Definition REJECTED : string := "rejected".
Definition AUTO_APPROVED : string := "auto_approved".

(** [Object.values(USER_ROLES)]. *)
Definition validRoles : list string := [USER; CONTENT_CREATOR; MODERATOR; ADMIN].

(** What [>=] compares after [ToPrimitive]: a number, or a string that is
    no numeral. *)
Inductive JsValue : Type :=
| Num (n : Z)
| Text (s : string).

(** The names every object literal inherits from [Object.prototype]:
    [roleHierarchy[name]] is then a function or an object, not
    [undefined], so that [?? -1] leaves it. *)
Definition inherited (name : string) : bool :=
  bool_decide (name ∈ ["constructor"; "hasOwnProperty"; "isPrototypeOf";
                        "propertyIsEnumerable"; "toLocaleString"; "toString";
                        "valueOf"; "__proto__"; "__defineGetter__";
                        "__defineSetter__"; "__lookupGetter__";
                        "__lookupSetter__"]).

(** [a >= b], that is, not [a < b]: two numbers by value, two strings by
    their code units; a string that is no numeral is [NaN] against a
    number, and the comparison fails. *)
Definition geq (a b : JsValue) : bool :=
  match a, b with
  | Num x, Num y => (y <=? x)%Z
  | Text s, Text t => negb (String.ltb s t)
  | _, _ => false
  end.

(** The source text V8 prints for the built-in functions of
    [Object.prototype], after the keyword. *)
Definition v8_native (name : string) : string :=
  if String.eqb name "constructor" then " Object() { [native code] }"
  else (" " ++ name ++ "() { [native code] }")%string.

Section Engine.

(** What follows the keyword [function] in the source text that the
    engine prints for the built-in function stored under an [inherited]
    name: the text is implementation-defined, the keyword is not. *)
Variable native : string -> string.

(** The primitive value of [roleHierarchy[name]] for an [inherited] name:
    under [__proto__] sits [Object.prototype] itself, which prints as
    [[object Object]]; under every other name sits a built-in function,
    which prints as its source text. *)
Definition primitive_of (name : string) : string :=
  if String.eqb name "__proto__" then "[object Object]"
  else ("function" ++ native name)%string.

(** [roleHierarchy[role] ?? -1], lines 397-405, as [>=] sees it. *)
Definition level (role : string) : JsValue :=
  if String.eqb role USER then Num 0
  else if String.eqb role CONTENT_CREATOR then Num 1
  else if String.eqb role MODERATOR then Num 2
  else if String.eqb role ADMIN then Num 3
  else if inherited role then Text (primitive_of role)
  else Num (-1).

(** [hasRole], lines 396-408. *)
Definition hasRole (userRole requiredRole : string) : bool :=
  geq (level userRole) (level requiredRole).

(** [isUserApproved], lines 416-419. *)
Definition isUserApproved (approvalStatus : string) : bool :=
  String.eqb approvalStatus APPROVED || String.eqb approvalStatus AUTO_APPROVED.

(** The fields of a user document the checks read. *)
Record UserDoc : Type := mkUserDoc {
  doc_role : string;
  doc_approvalStatus : string
}.

(** [canCreateContent], lines 466-474. *)
Definition canCreateContent (userDoc : option UserDoc) : bool :=
  match userDoc with
  | None => false
  | Some d =>
      let isApproved := isUserApproved (doc_approvalStatus d) in
      let hasPermission :=
        hasRole (doc_role d) CONTENT_CREATOR || hasRole (doc_role d) ADMIN in
      isApproved && hasPermission
  end.

(** [UserPermissions] of [src/services/authHelpers.ts]. *)
Record UserPermissions : Type := mkPerms {
  perm_role : string;
  perm_approvalStatus : string;
  perm_isActive : bool
}.

(** [canAccessProtectedFeatures], authHelpers lines 26-33. *)
Definition canAccessProtectedFeatures (userPerms : option UserPermissions) : bool :=
  match userPerms with
  | None => false
  | Some p => isUserApproved (perm_approvalStatus p) && perm_isActive p
  end.

(** [canManageContent], lines 42-50. *)
Definition canManageContent (userPerms : option UserPermissions) : bool :=
  match userPerms with
  | None => false
  | Some p =>
      isUserApproved (perm_approvalStatus p) && perm_isActive p
      && hasRole (perm_role p) CONTENT_CREATOR
  end.

(** [canModerate], lines 59-63, and [isFullAdmin], lines 72-76. *)
Definition canModerate (userPerms : option UserPermissions) : bool :=
  match userPerms with
  | None => false
  | Some p => hasRole (perm_role p) MODERATOR
  end.

Definition isFullAdmin (userPerms : option UserPermissions) : bool :=
  match userPerms with
  | None => false
  | Some p => hasRole (perm_role p) ADMIN
  end.

(** [isAccountRestricted], lines 138-145. *)
Definition isAccountRestricted (userPerms : option UserPermissions) : bool :=
  match userPerms with
  | None => false
  | Some p =>
      String.eqb (perm_approvalStatus p) REJECTED || negb (perm_isActive p)
  end.

(** [getRestrictionMessage], lines 153-169. *)
Definition getRestrictionMessage (userPerms : option UserPermissions) : string :=
  match userPerms with
  | None => "Account not found"
  | Some p =>
      if negb (perm_isActive p) then
        "Your account has been suspended. Please contact support."
      else if String.eqb (perm_approvalStatus p) REJECTED then
        "Your account has been rejected. Please contact support for more information."
      else if String.eqb (perm_approvalStatus p) PENDING then
        "Your account is pending approval. You'll be notified once reviewed."
      else "Your account has access restrictions"
  end.

(** [needsOnboarding], lines 178-183. *)
Definition needsOnboarding (userPerms : option UserPermissions) : bool :=
  match userPerms with
  | None => false
  | Some p => String.eqb (perm_approvalStatus p) PENDING
  end.

(** [hasPermission], lines 198-206. *)
Definition hasPermission (userPerms : option UserPermissions) (requiredRole : string)
  : bool :=
  match userPerms with
  | None => false
  | Some p =>
      if negb (canAccessProtectedFeatures (Some p)) then false
      else hasRole (perm_role p) requiredRole
  end.

(** [canModifyUser], lines 242-254. *)
Definition canModifyUser (initiatorPerms targetPerms : UserPermissions) : bool :=
  if String.eqb (perm_role initiatorPerms) (perm_role targetPerms) then
    hasRole (perm_role initiatorPerms) ADMIN
  else
    hasRole (perm_role initiatorPerms) (perm_role targetPerms)
    && hasRole (perm_role initiatorPerms) MODERATOR.

End Engine.

(** The error objects of the Firebase client: [code] and [message], each
    possibly missing (the empty text). *)
Record FirebaseError : Type := mkFirebaseError {
  fb_code : string;
  fb_message : string
}.

(** [handleAuthError], [src/services/firebaseAuth.ts] lines 166-207: the
    message of the [Error] it builds. *)
Definition handleAuthError (error : FirebaseError) : string :=
  let message := "An authentication error occurred" in
  if String.eqb (fb_code error) "" then message
  else if String.eqb (fb_code error) "auth/invalid-email" then
    "Invalid email address"
  else if String.eqb (fb_code error) "auth/user-disabled" then
    "This account has been disabled"
  else if String.eqb (fb_code error) "auth/user-not-found" then
    "No account found with this email"
  else if String.eqb (fb_code error) "auth/wrong-password" then
    "Incorrect password"
  else if String.eqb (fb_code error) "auth/email-already-in-use" then
    "Email already in use. Please login or use a different email"
  else if String.eqb (fb_code error) "auth/operation-not-allowed" then
    "This operation is not allowed"
  else if String.eqb (fb_code error) "auth/weak-password" then
    "Password is too weak"
  else if String.eqb (fb_code error) "auth/popup-closed-by-user" then
    "Google sign-in was cancelled"
  else if String.eqb (fb_code error) "auth/popup-blocked" then
    "Google sign-in popup was blocked. Please allow popups"
  else if String.eqb (fb_code error) "auth/account-exists-with-different-credential" then
    "An account already exists with this email using a different sign-in method"
  else or_else (fb_message error) message.

End Roles.

(** ** The Firebase hook ([src/hooks/useAuth.ts]) *)

Module FirebaseHook.

(** The Firebase user the listener receives. *)
Record FirebaseUser : Type := mkFirebaseUser {
  fu_uid : string;
  fu_email : option string;
  fu_displayName : option string
}.

(** [{ ...currentUser, role, approvalStatus }]. *)
Record UserWithRole : Type := mkUserWithRole {
  uw_base : FirebaseUser;
  uw_role : string;
  uw_approvalStatus : string
}.

(** The four [useState] cells of the hook. *)
Record HookState : Type := mkHookState {
  h_user : option UserWithRole;
  h_userDoc : option Roles.UserDoc;
  h_loading : bool;
  h_error : option string
}.

(** [err instanceof Error ? err.message : fallback]. *)
Definition message_or (fallback : string) (err : Thrown) : string :=
  match error_message err with
  | Some msg => msg
  | None => fallback
  end.

(** [getUserDocument], [src/services/firebaseAuth.ts] lines 321-334: the
    document, [null] when there is none; a failure of [getDoc] is logged
    and thrown again. *)
Definition getUserDocument (getDoc : Settled (option Roles.UserDoc))
  : Settled (option Roles.UserDoc) :=
  match getDoc with
  | Fulfilled d => Fulfilled d
  | Rejected e => Rejected e
  end.

(** [updateLastLogin], lines 448-457: a failure of [updateDoc] is logged
    and swallowed. *)
Definition updateLastLogin (updateDoc : Settled unit) : Settled unit :=
  match updateDoc with
  | Fulfilled _ => Fulfilled tt
  | Rejected _ => Fulfilled tt
  end.

(** The listener given to [onAuthStateChanged], [useAuth.ts] lines 55-86,
    played to its end; [getDoc] and [updateDoc] are what Firestore
    answers. *)
Definition onAuthStateChanged (getDoc : Settled (option Roles.UserDoc))
    (updateDoc : Settled unit) (currentUser : option FirebaseUser)
    (st : HookState) : HookState :=
  let st1 := {| h_user := h_user st; h_userDoc := h_userDoc st;
                h_loading := true; h_error := None |} in
  let tried : HookState + Thrown :=
    match currentUser with
    | Some cu =>
        match getUserDocument getDoc with
        | Rejected e => inr e
        | Fulfilled userDocData =>
            match updateLastLogin updateDoc with
            | Rejected e => inr e
            | Fulfilled _ =>
                let userWithRole :=
                  {| uw_base := cu;
                     uw_role :=
                       or_else (match userDocData with
                                | Some d => Roles.doc_role d
                                | None => ""
                                end) Roles.USER;
                     uw_approvalStatus :=
                       or_else (match userDocData with
                                | Some d => Roles.doc_approvalStatus d
                                | None => ""
                                end) Roles.PENDING |} in
                inl {| h_user := Some userWithRole; h_userDoc := userDocData;
                       h_loading := h_loading st1; h_error := h_error st1 |}
            end
        end
    | None =>
        inl {| h_user := None; h_userDoc := None;
               h_loading := h_loading st1; h_error := h_error st1 |}
    end in
  let caught :=
    match tried with
    | inl st2 => st2
    | inr err =>
        {| h_user := h_user st1; h_userDoc := h_userDoc st1;
           h_loading := h_loading st1;
           h_error := Some (message_or "Auth error occurred" err) |}
    end in
  {| h_user := h_user caught; h_userDoc := h_userDoc caught;
     h_loading := false; h_error := h_error caught |}.

Section Engine.

(** The source text of the built-in functions, as for [Roles.hasRole]. *)
Variable native : string -> string.

(** [checkRole], lines 103-106, and the derived fields, lines 108-125. *)
Definition checkRole (st : HookState) (role : string) : bool :=
  match h_user st with
  | Some u =>
      if String.eqb (uw_role u) "" then false
      else Roles.hasRole native (uw_role u) role
  | None => false
  end.

Definition isAuthenticated (st : HookState) : bool :=
  match h_user st with Some _ => true | None => false end.

Definition isAdmin (st : HookState) : bool := checkRole st Roles.ADMIN.

Definition isApproved (st : HookState) : bool :=
  Roles.isUserApproved
    (or_else (match h_user st with
              | Some u => uw_approvalStatus u
              | None => ""
              end) Roles.PENDING).

Definition canCreateContent (st : HookState) : bool :=
  match h_userDoc st with
  | Some d => Roles.canCreateContent native (Some d)
  | None => false
  end.

End Engine.

End FirebaseHook.

(** ** Session changes handled one at a time *)

Module OneByOne.

(** A session-change event together with the answer its profile fetch
    will get (not used when the session is null). *)
Definition Delivery : Type :=
  (AuthChangeEvent * option Session * Settled SingleResponse)%type.

(** The event, and the turns that bring its handler to its end, when the
    handler sits in the slot [slot]. *)
Definition deliver (slot : nat) (d : Delivery) : list Input :=
  match d with
  | (ev, None, _) => [Emit ev None]
  | (ev, Some s, r) =>
      [Emit ev (Some s); Resume slot (GotProfile r); Resume slot Tick]
  end.

(** Each event is delivered after the handler of the one before ended. *)
Fixpoint one_by_one (slot : nat) (ds : list Delivery) : list Input :=
  match ds with
  | [] => []
  | d :: rest => deliver slot d ++ one_by_one (S slot) rest
  end.

(** The state a handler leaves when nothing else ran meanwhile. *)
Definition settled_state (d : Delivery) : AuthState :=
  match d with
  | (_, None, _) => {| user := None; session := None; isLoading := false |}
  | (_, Some s, r) =>
      {| user := profile_of (classify r); session := Some s; isLoading := false |}
  end.

End OneByOne.

(** ** Who writes the session cell *)

Module SessionCell.

(** [p] never writes the [session] cell. *)
Fixpoint keeps_session {R : Type} (p : Async R) : Prop :=
  match p with
  | Return _ | Throw _ => True
  | Do a k => (forall s, a <> SetSession s) /\ keeps_session k
  | Await c k => forall s, keeps_session (k s)
  | Yield k => keeps_session k
  end.

(** The session of the last event of a schedule; [before] when the
    schedule has no event. *)
Fixpoint last_event (inps : list Input) (before : option Session) : option Session :=
  match inps with
  | [] => before
  | Emit _ s :: rest => last_event rest s
  | _ :: rest => last_event rest before
  end.

(** No call in flight will write the [session] cell. *)
Definition quiet_pool (sys : Sys) : Prop :=
  forall i t, pool sys !! i = Some (Some t) -> keeps_session (snd t).

End SessionCell.

(** ** The Route Guard: loading, authenticated and elevated routes *)

Section GuardProperties.

Variable requiredRole : option Role.

Local Ltac guard_eval :=
  unfold mounted_at, V6.ProtectedRoute, V5.ProtectedRoute, V4.ProtectedRoute,
    test2, test, log, render, useAuth, isAuthenticated, isAdmin; simpl.

(** C4.  Whatever the session, the profile and the required role are,
    while [isLoading] is true each copy of the guard renders its loading
    placeholder, and the only condition it has evaluated is the one on
    [isLoading]: neither the authentication check nor a role check ran. *)
Theorem guard_waits_while_loading (ctx : AuthContextType) :
  ctx_isLoading ctx = true ->
  mounted_at (V6.ProtectedRoute requiredRole ctx)
    = (Placeholder (Some "Verifying authentication..."), [Evaluated OnIsLoading])
  /\ mounted_at (V5.ProtectedRoute requiredRole ctx)
    = (Placeholder None, [Evaluated OnIsLoading])
  /\ mounted_at (V4.ProtectedRoute requiredRole ctx)
    = (Placeholder None, [Evaluated OnIsLoading]).
Proof.
  intros Hloading; guard_eval; rewrite Hloading; auto.
Qed.

End GuardProperties.

(** C4 at a state with a session, an elevated profile and an admin route. *)
Lemma guard_waits_while_loading_witness :
  let st := {| user := Some (mkUser "u1" "a@x.com" "A" "admin" true false "" "");
               session := Some (mkSession (mkAuthUser "u1" None) "t");
               isLoading := true |} in
  probes (snd (mounted_at (V6.ProtectedRoute (Some admin) (useAuth st))))
    = [OnIsLoading].
Proof.
  intros st.
  rewrite (proj1 (guard_waits_while_loading (Some admin) (useAuth st) eq_refl)).
  reflexivity.
Defined.

(** C5 as stated fails on the copy of part_004: on a route that requires
    ['user'], with [isLoading] false, a session and no profile, it renders
    a placeholder and not the children. *)
Lemma guard_v4_shows_placeholder :
  let st := {| user := None; session := Some sessionA; isLoading := false |} in
  fst (mounted_at (V4.ProtectedRoute (Some user_role) (useAuth st)))
    = Placeholder (Some "Setting up your account...")
  /\ fst (mounted_at (V4.ProtectedRoute (Some user_role) (useAuth st))) <> Children.
Proof.
  cbv zeta; split; [reflexivity | discriminate].
Qed.

(** C5, amended.  With [isLoading] false, a session and no profile, the
    guard of part_006 and of part_005 renders the children of a route that
    requires ['user']; the copy of part_004 keeps showing a placeholder
    there, until a profile is loaded.  Every copy redirects a route that
    requires ['admin'] to the home page. *)
Theorem guard_session_without_profile (s : Session) :
  let st := {| user := None; session := Some s; isLoading := false |} in
  fst (mounted_at (V6.ProtectedRoute (Some user_role) (useAuth st))) = Children
  /\ fst (mounted_at (V6.ProtectedRoute (Some admin) (useAuth st))) = Navigate "/" true
  /\ fst (mounted_at (V5.ProtectedRoute (Some user_role) (useAuth st))) = Children
  /\ fst (mounted_at (V5.ProtectedRoute (Some admin) (useAuth st))) = Navigate "/" true
  /\ fst (mounted_at (V4.ProtectedRoute (Some user_role) (useAuth st)))
     = Placeholder (Some "Setting up your account...")
  /\ fst (mounted_at (V4.ProtectedRoute (Some admin) (useAuth st))) = Navigate "/" true
  /\ (forall u : User,
      let loaded := {| user := Some u; session := Some s; isLoading := false |} in
      fst (mounted_at (V4.ProtectedRoute (Some user_role) (useAuth loaded)))
      = Children).
Proof.
  cbv zeta; repeat split; reflexivity.
Qed.

(** C6.  With [isLoading] false, a session and a profile, every copy of
    the guard renders the children of an admin route exactly when the
    profile's role is ['admin'], and redirects for any other role; this is
    the [isAdmin] flag of the context. *)
Theorem guard_admin_iff_role (s : Session) (u : User) :
  let st := {| user := Some u; session := Some s; isLoading := false |} in
  let outcome := if String.eqb (role u) "admin" then Children else Navigate "/" true in
  (isAdmin st = true <-> role u = "admin")
  /\ (outcome = Children <-> role u = "admin")
  /\ fst (mounted_at (V6.ProtectedRoute (Some admin) (useAuth st))) = outcome
  /\ fst (mounted_at (V5.ProtectedRoute (Some admin) (useAuth st))) = outcome
  /\ fst (mounted_at (V4.ProtectedRoute (Some admin) (useAuth st))) = outcome.
Proof.
  cbv zeta.
  unfold mounted_at, V6.ProtectedRoute, V5.ProtectedRoute, V4.ProtectedRoute,
    test2, test, log, render, useAuth, isAuthenticated, isAdmin; simpl.
  destruct (String.eqb_spec (role u) "admin") as [Heq | Hne]; simpl.
  - repeat split; auto.
  - repeat split; auto; try discriminate; intros; contradiction.
Qed.

(** ** The shapes are kept by the combinators *)

Section ShapeLemmas.

Context {R : Type}.

Lemma nothrow_try_catch (p : Async R) (h : Thrown -> Async R) :
  (forall e, nothrow (h e)) -> nothrow (try_catch p h).
Proof. intros Hh; induction p; simpl; auto. Qed.

Lemma raises_try_catch (P : Thrown -> Prop) (p : Async R) (h : Thrown -> Async R) :
  (forall e, raises P (h e)) -> raises P (try_catch p h).
Proof. intros Hh; induction p; simpl; auto. Qed.

Lemma nothrow_try_catch_raises (P : Thrown -> Prop) (p : Async R)
    (h : Thrown -> Async R) :
  raises P p -> (forall e, P e -> nothrow (h e)) -> nothrow (try_catch p h).
Proof. intros Hp Hh; induction p; simpl in *; auto. Qed.

Lemma raises_await_async (P : Thrown -> Prop) (p : Async R) :
  raises P p -> raises P (await_async p).
Proof. induction p; simpl; auto. Qed.

Lemma nothrow_await_async (p : Async R) : nothrow p -> nothrow (await_async p).
Proof. induction p; simpl; auto. Qed.

Lemma nothrow_bind {B : Type} (p : Async R) (f : R -> Async B) :
  nothrow p -> (forall r, nothrow (f r)) -> nothrow (bind p f).
Proof. intros Hp Hf; induction p; simpl in *; auto. Qed.

Lemma calm_try_catch (p : Async R) (h : Thrown -> Async R) :
  calm p -> (forall e, calm (h e)) -> calm (try_catch p h).
Proof. intros Hp Hh; induction p; simpl in *; intuition auto. Qed.

Lemma calm_await_async (p : Async R) : calm p -> calm (await_async p).
Proof. induction p; simpl; intuition auto. Qed.

Lemma calm_bind {B : Type} (p : Async R) (f : R -> Async B) :
  calm p -> (forall r, calm (f r)) -> calm (bind p f).
Proof. intros Hp Hf; induction p; simpl in *; intuition auto. Qed.

(** The conversions at the head of a [catch] block. *)
Lemma nothrow_read_message (error : Thrown) (k : string -> Async R) :
  printable error = true -> (forall text, nothrow (k text)) ->
  nothrow (read_message error k).
Proof.
  unfold printable, read_message. destruct (message_of error); [auto | discriminate].
Qed.

Lemma nothrow_json_stringify (error : Thrown) (k : Async R) :
  serializable error = true -> nothrow k -> nothrow (json_stringify error k).
Proof.
  unfold serializable, json_stringify. destruct (stringify error); [discriminate | auto].
Qed.

Lemma calm_read_message (error : Thrown) (k : string -> Async R) :
  (forall text, calm (k text)) -> calm (read_message error k).
Proof. unfold read_message. destruct (message_of error); simpl; auto. Qed.

Lemma calm_json_stringify (error : Thrown) (k : Async R) :
  calm k -> calm (json_stringify error k).
Proof. unfold json_stringify. destruct (stringify error); simpl; auto. Qed.

Lemma stateless_read_message (error : Thrown) (k : string -> Async R) :
  (forall text, stateless (k text)) -> stateless (read_message error k).
Proof. unfold read_message. destruct (message_of error); simpl; auto. Qed.

Lemma stateless_json_stringify (error : Thrown) (k : Async R) :
  stateless k -> stateless (json_stringify error k).
Proof. unfold json_stringify. destruct (stringify error); simpl; auto. Qed.

End ShapeLemmas.

(** A failed conversion throws a [TypeError], on which both conversions
    succeed. *)
Lemma message_of_throws (error thrown : Thrown) :
  message_of error = inr thrown ->
  exists complaint stack, thrown = TypeError complaint stack.
Proof.
  induction error as [| | | complaint stack | e IH complaint stack]; simpl;
    try discriminate; [|exact IH].
  intros [= <-]. eauto.
Qed.

Lemma stringify_throws (error thrown : Thrown) :
  stringify error = Some thrown ->
  exists complaint stack, thrown = TypeError complaint stack.
Proof. destruct error; simpl; try discriminate. intros [= <-]. eauto. Qed.

Lemma tame_TypeError (complaint stack : string) : tame (TypeError complaint stack).
Proof. split; reflexivity. Qed.

Lemma raises_read_message {R : Type} (error : Thrown) (k : string -> Async R) :
  (forall text, raises tame (k text)) -> raises tame (read_message error k).
Proof.
  intros Hk. unfold read_message. destruct (message_of error) as [text|t] eqn:E; [auto|].
  destruct (message_of_throws _ _ E) as (c & s & ->). apply tame_TypeError.
Qed.

Lemma raises_json_stringify {R : Type} (error : Thrown) (k : Async R) :
  raises tame k -> raises tame (json_stringify error k).
Proof.
  intros Hk. unfold json_stringify. destruct (stringify error) as [t|] eqn:E; [|auto].
  destruct (stringify_throws _ _ E) as (c & s & ->). apply tame_TypeError.
Qed.

Lemma settles_nothrow (p : Async unit) : forall c, settles c p -> nothrow p.
Proof. induction p; simpl; eauto. Qed.

Lemma settles_bind_return (f : Async unit) :
  forall c, settles c f -> settles c (bind f (fun _ => Return tt)).
Proof. induction f; simpl; auto. Qed.

Lemma settles_finally (q f : Async unit) :
  nothrow q -> (forall c, settles c f) -> forall c, settles c (finally q f).
Proof.
  intros Hq Hf.
  induction q as [[] | e | a k IH | call k IH | k IH]; simpl in *; intros b; auto.
  - apply settles_bind_return, Hf.
  - contradiction.
Qed.

(** *** The shapes of the reconciler's functions *)

(** [fetchUserProfile] rejects only when its [catch] cannot convert what
    it caught, and then with a [TypeError]. *)
Lemma raises_fetchUserProfile userId : raises tame (fetchUserProfile userId).
Proof.
  apply raises_try_catch. intros e. apply raises_read_message. intros _.
  unfold log_stack. destruct (instanceofError e); simpl; auto.
Qed.

(** The [catch] of the handler only ever takes what [fetchUserProfile]
    throws, which it can convert. *)
Lemma settles_onAuthStateChange ev s : settles false (onAuthStateChange ev s).
Proof.
  unfold onAuthStateChange. cbn [settles].
  apply settles_finally.
  - apply (nothrow_try_catch_raises tame).
    + cbn [raises]. destruct s as [s|]; cbn [raises]; [|exact I].
      apply raises_await_async, raises_fetchUserProfile.
    + intros e [Hp _]. apply nothrow_read_message; [exact Hp|]. intros _.
      unfold log_stack. destruct (instanceofError e); simpl; auto.
  - intros c; simpl; auto.
Qed.

Lemma settles_initializeAuth : settles false initializeAuth.
Proof.
  apply settles_finally.
  - apply nothrow_try_catch. intros e; simpl; auto.
  - intros c; simpl; auto.
Qed.

Lemma calm_fetchUserProfile userId : calm (fetchUserProfile userId).
Proof.
  apply calm_try_catch.
  - simpl. split; [discriminate|]. intros [r|e]; simpl; auto.
    destruct (single_error r); simpl.
    + split; [discriminate|]. repeat (case_match; simpl); repeat split; auto; discriminate.
    + destruct (single_data r); simpl; repeat split; auto; discriminate.
  - intros e. apply calm_read_message. intros _.
    unfold log_stack. destruct (instanceofError e); simpl; repeat split; auto;
      discriminate.
Qed.

Lemma calm_logout : calm logout.
Proof.
  apply calm_try_catch.
  - simpl. split; [discriminate|]. intros [r|e]; simpl; repeat split; auto; discriminate.
  - intros e; simpl; repeat split; auto; discriminate.
Qed.

Lemma nothrow_logout : nothrow logout.
Proof. apply nothrow_try_catch; intros e; simpl; auto. Qed.

Lemma stateless_calm {R : Type} (p : Async R) : stateless p -> calm p.
Proof.
  induction p as [r | e | a k IH | call k IH | k IH]; simpl; auto.
  intros [(l & text & ->) Hk]. split; [discriminate | auto].
Qed.

Lemma stateless_login e p : stateless (login e p).
Proof.
  unfold login. simpl. split; [eauto|]. intros [r|x]; simpl.
  - destruct (signin_error r); simpl; eauto 6.
    destruct (signin_session r); simpl; eauto 6.
  - apply stateless_read_message. intros _. simpl. eauto 6.
Qed.

Lemma stateless_signup e p n : stateless (signup e p n).
Proof.
  unfold signup. simpl. intros [r|x]; simpl; eauto 6.
  destruct (signup_error r); simpl; eauto 6.
  destruct (signup_user r); simpl; eauto 6.
  intros [[?|]|?]; simpl; auto.
Qed.

Lemma nothrow_signup e p n : nothrow (signup e p n).
Proof. apply nothrow_try_catch; intros x; simpl; auto. Qed.

(** *** One stretch of a call keeps its shape *)

Lemma park_settles kind (p : Async unit) :
  forall b w, settles b p -> (b = true -> isLoading (auth w) = false) ->
  let '(w', slot, status) := park kind (advance p w) in
  (status = Suspended /\ exists p', slot = Some (kind, p') /\ settles false p')
  \/ (status = Completed kind /\ slot = None /\ isLoading (auth w') = false).
Proof.
  induction p as [[] | e | a k IH | call k IH | k IH]; simpl; intros b w Hs Hb.
  - right; auto.
  - contradiction.
  - apply (IH _ _ Hs).
    destruct a as [u | s | [] | l text]; simpl; auto; discriminate.
  - left; split; [reflexivity|]. eexists; split; [reflexivity|]. exact Hs.
  - left; split; [reflexivity|]. eexists; split; [reflexivity|]. exact Hs.
Qed.

Lemma park_calm kind (p : Async unit) :
  forall w, calm p ->
  let '(w', slot, status) := park kind (advance p w) in
  (isLoading (auth w') = true -> isLoading (auth w) = true) /\
  ((status = Suspended
    /\ exists p', slot = Some (kind, p') /\ calm p' /\ (nothrow p -> nothrow p'))
   \/ (status = Completed kind /\ slot = None)
   \/ (exists e, status = Crashed kind e /\ slot = None /\ ~ nothrow p)).
Proof.
  induction p as [[] | e | a k IH | call k IH | k IH]; simpl; intros w Hc.
  - auto.
  - split; [auto|]. right; right. exists e. auto.
  - destruct Hc as [Ha Hc]. specialize (IH (apply a w) Hc).
    destruct (park kind (advance k (apply a w))) as [[w' slot] status].
    destruct IH as [Hl IH]. split; [|exact IH].
    intros H'; specialize (Hl H'). destruct a as [| |[]|]; simpl in *; congruence.
  - split; [auto|]. left; split; [reflexivity|]. eexists; split; [reflexivity|]. auto.
  - split; [auto|]. left; split; [reflexivity|]. eexists; split; [reflexivity|]. auto.
Qed.

Lemma park_guarded kind (p : Async unit) (w : World) :
  guarded (kind, p) ->
  let '(w', slot, status) := park kind (advance p w) in
  (reconciling kind = false -> isLoading (auth w') = true -> isLoading (auth w) = true) /\
  ((status = Suspended /\ exists p', slot = Some (kind, p') /\ guarded (kind, p'))
   \/ (status = Completed kind /\ slot = None /\
       (reconciling kind = true -> isLoading (auth w') = false))
   \/ (exists e, status = Crashed kind e /\ slot = None /\ steady kind = false
                 /\ reconciling kind = false)).
Proof.
  unfold guarded; simpl. intros [Hn Hg].
  destruct (reconciling kind) eqn:Hk.
  - pose proof (park_settles kind p false w Hg ltac:(discriminate)) as H.
    destruct (park kind (advance p w)) as [[w' slot] status].
    split; [discriminate|].
    destruct H as [(-> & p' & -> & Hs) | (-> & -> & Hl)].
    + left; split; [reflexivity|]. exists p'. split; [reflexivity|].
      eauto using settles_nothrow.
    + right; left; auto.
  - pose proof (park_calm kind p w Hg) as H.
    destruct (park kind (advance p w)) as [[w' slot] status].
    destruct H as [Hl H]. split; [auto|].
    destruct H as [(-> & p' & -> & Hc' & Hn') | [(-> & ->) | (e & -> & -> & Hthrows)]].
    + left; split; [reflexivity|]. exists p'. split; [reflexivity|].
      auto.
    + right; left; repeat split; auto. discriminate.
    + right; right. exists e. repeat split; auto.
      destruct (steady kind); [|reflexivity]. by destruct Hthrows; auto.
Qed.

(** *** The invariant of the event loop *)

Lemma lookup_snoc {A : Type} (l : list A) (x : A) : (l ++ [x]) !! length l = Some x.
Proof. by apply list_lookup_middle. Qed.

Lemma lookup_snoc_Some {A : Type} (l : list A) (x y : A) i :
  (l ++ [x]) !! i = Some y -> l !! i = Some y \/ (i = length l /\ y = x).
Proof.
  intros H. apply lookup_app_Some in H as [H | [Hle H]]; [auto|].
  right. destruct (i - length l) as [|n] eqn:E; simpl in H; [|by destruct n].
  split; [lia | congruence].
Qed.

Lemma launch_invariant kind p sys :
  invariant sys -> guarded (kind, p) ->
  invariant (fst (launch kind p sys)) /\
  (forall k e, snd (launch kind p sys) = Crashed k e -> steady k = false) /\
  (forall k, snd (launch kind p sys) = Completed k -> reconciling k = true ->
             isLoading (auth (world (fst (launch kind p sys)))) = false).
Proof.
  intros [Hpool Hload] Hg. unfold launch.
  pose proof (park_guarded kind p (world sys) Hg) as H.
  destruct (park kind (advance p (world sys))) as [[w' slot] status];
    unfold invariant; cbn [fst snd world pool auth].
  destruct H as [Hl H].
  assert (Hold : forall i t, pool sys !! i = Some (Some t) ->
                   (pool sys ++ [slot]) !! i = Some (Some t)).
  { intros i t Hi. rewrite lookup_app_l; [done|]. by eapply lookup_lt_Some. }
  destruct H as [(-> & p' & -> & Hg') | [(-> & -> & Hdone) | (e & -> & -> & Hst & Hrec)]].
  - split; [split|split; [discriminate|discriminate]].
    + intros i t Hi. apply lookup_snoc_Some in Hi as [Hi | [_ Hi]]; [eauto|].
      by inversion Hi.
    + intros Hw. destruct (reconciling kind) eqn:Hk.
      * exists (length (pool sys)), (kind, p'). split; [apply lookup_snoc | done].
      * destruct (Hload (Hl eq_refl Hw)) as (i & t & Hi & Hr). eauto.
  - split; [split|split; [discriminate|]].
    + intros i t Hi. apply lookup_snoc_Some in Hi as [Hi | [_ Hi]]; [eauto|].
      discriminate.
    + intros Hw. destruct (reconciling kind) eqn:Hk.
      * rewrite Hdone in Hw by done. discriminate.
      * destruct (Hload (Hl eq_refl Hw)) as (i & t & Hi & Hr). eauto.
    + intros k [= <-] Hk. auto.
  - split; [split|split; [|discriminate]].
    + intros i t Hi. apply lookup_snoc_Some in Hi as [Hi | [_ Hi]]; [eauto|].
      discriminate.
    + intros Hw. destruct (Hload (Hl Hrec Hw)) as (i & t & Hi & Hr). eauto.
    + intros k e' [= <- _]. exact Hst.
Qed.

Lemma continue_invariant i kind q p sys :
  invariant sys -> pool sys !! i = Some (Some (kind, q)) -> guarded (kind, p) ->
  invariant (fst (continue i kind p sys)) /\
  (forall k e, snd (continue i kind p sys) = Crashed k e -> steady k = false) /\
  (forall k, snd (continue i kind p sys) = Completed k -> reconciling k = true ->
             isLoading (auth (world (fst (continue i kind p sys)))) = false).
Proof.
  intros [Hpool Hload] Hq Hg. unfold continue.
  pose proof (park_guarded kind p (world sys) Hg) as H.
  destruct (park kind (advance p (world sys))) as [[w' slot] status];
    unfold invariant; cbn [fst snd world pool auth].
  destruct H as [Hl H].
  pose proof (lookup_lt_Some _ _ _ Hq) as Hlt.
  assert (Hkeep : reconciling kind = false -> isLoading (auth w') = true ->
            exists j t, <[i:=slot]> (pool sys) !! j = Some (Some t)
                        /\ reconciling (fst t) = true).
  { intros Hk Hw. destruct (Hload (Hl Hk Hw)) as (j & t & Hj & Hr).
    exists j, t. split; [|done].
    rewrite list_lookup_insert_ne; [done|]. intros ->.
    rewrite Hq in Hj. inversion Hj; subst. simpl in Hr. congruence. }
  assert (Hrest : forall j t, <[i:=slot]> (pool sys) !! j = Some (Some t) ->
            j <> i -> guarded t).
  { intros j t Hj Hne. rewrite list_lookup_insert_ne in Hj by done. eauto. }
  destruct H as [(-> & p' & -> & Hg') | [(-> & -> & Hdone) | (e & -> & -> & Hst & Hrec)]].
  - split; [split|split; [discriminate|discriminate]].
    + intros j t Hj. destruct (decide (j = i)) as [->|Hne]; [|eauto].
      rewrite list_lookup_insert_eq in Hj by done. by inversion Hj.
    + intros Hw. destruct (reconciling kind) eqn:Hk; [|auto].
      exists i, (kind, p'). split; [by apply list_lookup_insert_eq | done].
  - split; [split|split; [discriminate|]].
    + intros j t Hj. destruct (decide (j = i)) as [->|Hne]; [|eauto].
      rewrite list_lookup_insert_eq in Hj by done. discriminate.
    + intros Hw. destruct (reconciling kind) eqn:Hk; [|auto].
      rewrite Hdone in Hw by done. discriminate.
    + intros k [= <-] Hk. auto.
  - split; [split|split; [|discriminate]].
    + intros j t Hj. destruct (decide (j = i)) as [->|Hne]; [|eauto].
      rewrite list_lookup_insert_eq in Hj by done. discriminate.
    + intros Hw. auto.
    + intros k e' [= <- _]. exact Hst.
Qed.

Lemma guarded_handler ev s : guarded (Handler, onAuthStateChange ev s).
Proof.
  split; cbn [fst snd reconciling];
    [intros _; apply (settles_nothrow _ false)|]; apply settles_onAuthStateChange.
Qed.

Lemma guarded_refreshUser s : guarded (RefreshUser, refreshUser s).
Proof.
  split; cbn [fst snd reconciling steady]; [discriminate|].
  destruct s as [s|]; cbn [refreshUser]; [|exact I].
  apply calm_await_async, calm_fetchUserProfile.
Qed.

Lemma guarded_discard {R : Type} (kind : TaskKind) (p : Async R) :
  reconciling kind = false -> (steady kind = true -> nothrow p) -> stateless p ->
  guarded (kind, discard p).
Proof.
  intros Hk Hn Hs. split; cbn [fst snd]; [|rewrite Hk].
  - intros Hst. by apply nothrow_bind; [apply Hn|].
  - apply calm_bind; [by apply stateless_calm | done].
Qed.

Lemma invariant_mounted : invariant mounted.
Proof.
  split.
  - intros [|[|i]] t Hi; simpl in Hi; try discriminate.
    inversion Hi; subst; clear Hi.
    split; cbn [fst snd reconciling];
      [intros _; apply (settles_nothrow _ false)|]; apply settles_initializeAuth.
  - intros _. exists 0, (Initialize, initializeAuth). split; reflexivity.
Qed.

(** One turn of the event loop keeps the invariant; the only promises it
    can reject are those of [login] and [refreshUser]; and a reconciling
    call that ends leaves [isLoading] false. *)
Lemma step_invariant inp sys sys' status :
  invariant sys -> step inp sys = Some (sys', status) ->
  invariant sys' /\
  (forall k e, status = Crashed k e -> steady k = false) /\
  (forall k, status = Completed k -> reconciling k = true ->
             isLoading (auth (world sys')) = false).
Proof.
  intros Hinv Hstep.
  assert (Hlaunch : forall kind p, guarded (kind, p) ->
            Some (launch kind p sys) = Some (sys', status) ->
            invariant sys' /\
            (forall k e, status = Crashed k e -> steady k = false) /\
            (forall k, status = Completed k -> reconciling k = true ->
                       isLoading (auth (world sys')) = false)).
  { intros kind p Hg [= Heq].
    pose proof (launch_invariant kind p sys Hinv Hg) as H.
    by rewrite Heq in H. }
  destruct inp as [ev s | | e p | e p n | | i o]; simpl in Hstep.
  - eapply Hlaunch; [apply guarded_handler | exact Hstep].
  - eapply Hlaunch; [|exact Hstep].
    split; [intros _; apply nothrow_logout | apply calm_logout].
  - eapply Hlaunch; [|exact Hstep].
    apply guarded_discard; [reflexivity | discriminate | apply stateless_login].
  - eapply Hlaunch; [|exact Hstep].
    apply guarded_discard;
      [reflexivity | intros _; apply nothrow_signup | apply stateless_signup].
  - eapply Hlaunch; [apply guarded_refreshUser | exact Hstep].
  - destruct (pool sys !! i) as [[[kind [r | e | a k | c k | k]]|]|] eqn:Hi;
      try discriminate.
    + destruct (fits c o) as [s|] eqn:Ho; [|discriminate].
      injection Hstep as Heq.
      pose proof (proj1 Hinv _ _ Hi) as [Hn Hg].
      assert (Hks : guarded (kind, k s)).
      { split; [intros Hst; apply (Hn Hst)|]. cbn [fst snd] in *.
        destruct (reconciling kind); apply Hg. }
      pose proof (continue_invariant i kind _ (k s) sys Hinv Hi Hks) as H.
      by rewrite Heq in H.
    + destruct o; try discriminate.
      injection Hstep as Heq.
      pose proof (proj1 Hinv _ _ Hi) as [Hn Hg].
      assert (Hks : guarded (kind, k)).
      { split; [intros Hst; apply (Hn Hst)|]. cbn [fst snd] in *.
        destruct (reconciling kind); apply Hg. }
      pose proof (continue_invariant i kind _ k sys Hinv Hi Hks) as H.
      by rewrite Heq in H.
Qed.

Lemma reachable_invariant sys : reachable sys -> invariant sys.
Proof.
  induction 1 as [|inp sys sys' status _ IH Hstep].
  - apply invariant_mounted.
  - by destruct (step_invariant _ _ _ _ IH Hstep).
Qed.

(** Played alone against any environment, a call of the [settles] shape
    ends normally with [isLoading] false. *)
Lemma run_settles (env : Oracle) (p : Async unit) :
  forall b w, settles b p -> (b = true -> isLoading (auth w) = false) ->
  snd (run env p w) = Fulfilled tt /\ isLoading (auth (fst (run env p w))) = false.
Proof.
  induction p as [[] | e | a k IH | call k IH | k IH]; simpl; intros b w Hs Hb.
  - auto.
  - contradiction.
  - apply (IH _ _ Hs). destruct a as [| |[]|]; simpl; auto; discriminate.
  - apply (IH _ false _ (Hs _)). discriminate.
  - apply (IH false _ Hs). discriminate.
Qed.

(** C1.  The session-change handler and [initializeAuth] always end with
    [isLoading] false, and never with a rejected promise: played alone
    whatever the profile store and the identity provider answer (found, not
    found, permission denied, any other error, a thrown exception of any
    kind); and in every schedule of the event loop, with any number of
    events and calls in flight resumed in any order: the turn in which a
    handler or [initializeAuth] ends leaves [isLoading] false, neither of
    them ever crashes (nor do [logout] and [signup]; the only promises
    that can be rejected are those of [login] and [refreshUser]), and
    whenever nothing is in flight [isLoading] is false. *)
Theorem loading_never_stuck :
  (forall env ev s w,
      snd (run env (onAuthStateChange ev s) w) = Fulfilled tt
      /\ isLoading (auth (fst (run env (onAuthStateChange ev s) w))) = false)
  /\ (forall env w,
      snd (run env initializeAuth w) = Fulfilled tt
      /\ isLoading (auth (fst (run env initializeAuth w))) = false)
  /\ (forall sys inp sys' status,
      reachable sys -> step inp sys = Some (sys', status) ->
      (forall k e, status = Crashed k e -> k = Login \/ k = RefreshUser)
      /\ (status = Completed Handler \/ status = Completed Initialize ->
          isLoading (auth (world sys')) = false))
  /\ (forall sys, reachable sys -> quiescent sys ->
      isLoading (auth (world sys)) = false).
Proof.
  split; [|split; [|split]].
  - intros env ev s w.
    eapply run_settles; [apply settles_onAuthStateChange | discriminate].
  - intros env w.
    eapply run_settles; [apply settles_initializeAuth | discriminate].
  - intros sys inp sys' status Hreach Hstep.
    destruct (step_invariant _ _ _ _ (reachable_invariant _ Hreach) Hstep)
      as (_ & Hcrash & Hdone).
    split.
    + intros k e Hk. specialize (Hcrash k e Hk). destruct k; try discriminate; auto.
    + intros [-> | ->]; eapply Hdone; reflexivity.
  - intros sys Hreach Hquiet.
    destruct (reachable_invariant _ Hreach) as [_ Hload].
    destruct (isLoading (auth (world sys))) eqn:Hl; [|reflexivity].
    destruct (Hload eq_refl) as (i & t & Hi & _).
    unfold quiescent in Hquiet. rewrite Forall_lookup in Hquiet.
    specialize (Hquiet _ _ Hi). discriminate.
Qed.

(** C1 at the first turn after mounting: [getSession] rejects. *)
Lemma loading_never_stuck_witness :
  let after :=
    {| world := {| auth := {| user := None; session := None; isLoading := false |};
                   console := [(ERROR, "Error initializing auth:")];
                   requests := [GetSession] |};
       pool := [None] |} in
  reachable mounted
  /\ step (Resume 0 (GotSession (Rejected network_down))) mounted
     = Some (after, Completed Initialize)
  /\ isLoading (auth (world after)) = false.
Proof.
  intros after.
  split; [apply reachable_mounted|]. split; [reflexivity|].
  exact (proj2 (proj1 (proj2 (proj2 loading_never_stuck))
                  mounted (Resume 0 (GotSession (Rejected network_down)))
                  after (Completed Initialize) reachable_mounted eq_refl)
               (or_intror eq_refl)).
Defined.

(** The two calls that C1 leaves out do crash: [login] and [refreshUser]
    reject when the request rejects with a value that the [catch] block
    cannot convert; [isLoading] is not touched. *)
Remark login_and_refreshUser_can_reject :
  let thrown := TypeError "Cannot convert object to primitive value"
                  "TypeError: Cannot convert object to primitive value" in
  (exists sys sys',
      exec [Resume 0 (GotSession (Fulfilled None)); CallLogin "a@x.com" "secret"]
        mounted = Some sys
      /\ step (Resume 1 (GotSignIn (Rejected bare_object))) sys
         = Some (sys', Crashed Login thrown)
      /\ auth (world sys') = auth (world sys))
  /\ (exists sys sys',
      exec [Resume 0 (GotSession (Fulfilled (Some sessionA)));
            Resume 0 (GotProfile (row alice)); Resume 0 Tick; CallRefreshUser]
        mounted = Some sys
      /\ exec [Resume 1 (GotProfile (Rejected bare_object)); Resume 1 Tick] sys
         = Some sys'
      /\ pool sys' = [None; None]
      /\ auth (world sys')
         = {| user := Some alice; session := Some sessionA; isLoading := false |}).
Proof.
  cbv zeta. split; eexists _, _; repeat split; reflexivity.
Qed.

(** ** Calls in flight do not disturb a schedule *)

Lemma lookup_behind {A : Type} (before l : list A) (i : nat) :
  (before ++ l) !! (i + length before) = l !! i.
Proof.
  rewrite lookup_app_r by lia. f_equal; lia.
Qed.

Lemma insert_behind {A : Type} (before l : list A) (i : nat) (x : A) :
  <[i + length before := x]> (before ++ l) = before ++ <[i := x]> l.
Proof.
  rewrite Nat.add_comm. apply insert_app_r.
Qed.

Lemma launch_graft before kind p sys :
  launch kind p (graft before sys)
  = (graft before (fst (launch kind p sys)), snd (launch kind p sys)).
Proof.
  unfold launch, graft; cbn [world pool].
  destruct (park kind (advance p (world sys))) as [[w slot] status].
  cbn [fst snd world pool]. by rewrite app_assoc.
Qed.

Lemma continue_graft before i kind p sys :
  continue (i + length before) kind p (graft before sys)
  = (graft before (fst (continue i kind p sys)), snd (continue i kind p sys)).
Proof.
  unfold continue, graft; cbn [world pool].
  destruct (park kind (advance p (world sys))) as [[w slot] status].
  cbn [fst snd world pool]. by rewrite insert_behind.
Qed.

Lemma step_graft before inp sys :
  step (shift (length before) inp) (graft before sys)
  = match step inp sys with
    | Some (sys', status) => Some (graft before sys', status)
    | None => None
    end.
Proof.
  destruct inp as [ev s | | e p | e p n | | i o]; cbn [shift step];
    try (rewrite launch_graft; by destruct (launch _ _ sys)).
  cbn [graft pool]. rewrite lookup_behind. unfold Task.
  match goal with
  | |- match ?slot with _ => _ end = _ =>
      destruct slot as [[[kind [r | e | a k | c k | k]]|]|]; try done
  end.
  - destruct (fits c o); [|done].
    rewrite continue_graft. by destruct (continue _ _ _ sys).
  - destruct o; try done.
    rewrite continue_graft. by destruct (continue _ _ _ sys).
Qed.

Lemma exec_graft before inps :
  forall sys,
  exec (map (shift (length before)) inps) (graft before sys)
  = match exec inps sys with
    | Some sys' => Some (graft before sys')
    | None => None
    end.
Proof.
  induction inps as [|inp inps IH]; intros sys; cbn [map exec]; [done|].
  rewrite step_graft. destruct (step inp sys) as [[sys' status]|]; [apply IH | done].
Qed.

Lemma exec_behind inps sys :
  exec (map (shift (length (pool sys))) inps) sys
  = match exec inps (fresh (world sys)) with
    | Some sys' => Some (graft (pool sys) sys')
    | None => None
    end.
Proof.
  destruct sys as [w pl]; cbn [pool world].
  rewrite <- (exec_graft pl inps (fresh w)).
  unfold graft, fresh; cbn [world pool]. by rewrite app_nil_r.
Qed.

Lemma final_auth_behind inps sys :
  final_auth (exec (map (shift (length (pool sys))) inps) sys)
  = final_auth (exec inps (fresh (world sys))).
Proof.
  rewrite exec_behind. by destruct (exec inps (fresh (world sys))).
Qed.

(** A schedule written with the slots [n], [S n] is the schedule written
    with the slots [0], [1], moved behind the [n] slots of the pool. *)
Ltac behind_pool sys :=
  match goal with
  | |- context [exec ?l sys] =>
      match eval pattern (length (pool sys)) in l with
      | ?f _ =>
          let l0 := eval cbv beta in (f 0) in
          change l with (map (shift (length (pool sys))) l0);
          rewrite (final_auth_behind l0 sys)
      end
  end.

(** ** A handler, one turn at a time *)

(** A session-change event with a session: the handler records the
    session, raises [isLoading], sends the profile fetch and suspends. *)
Lemma emit_session ev s sys :
  exists w1 k,
    step (Emit ev (Some s)) sys
    = Some ({| world := w1;
               pool := pool sys ++
                 [Some (Handler, Await (SelectUserSingle (uid (session_user s))) k)] |},
            Suspended)
    /\ auth w1 = {| user := user (auth (world sys)); session := Some s;
                    isLoading := true |}
    /\ fetching k.
Proof.
  eexists _, _. split; [reflexivity|]. split; [reflexivity|].
  intros r w.
  assert (Hclear : finishing false
                     (Console LOG "[Auth] Setting isLoading to false" ;;
                      SetIsLoading false ;; Return tt)).
  { intros w0. eexists. split; reflexivity. }
  destruct r as [[data [err|]]|e].
  - cbn -[String.eqb or_else].
    destruct (String.eqb _ "PGRST116"); [|destruct (String.eqb _ "42501")];
      (eexists _, _; split; [reflexivity|]; split; [reflexivity|exact Hclear]).
  - destruct data; (eexists _, _; split; [reflexivity|]; split; [reflexivity|exact Hclear]).
  - unfold writes_late, printable.
    cbn -[message_of instanceofError]. unfold read_message, log_stack.
    destruct (message_of e) as [text|thrown] eqn:E.
    + destruct (instanceofError e);
        (eexists _, _; split; [reflexivity|]; split; [reflexivity|exact Hclear]).
    + destruct (message_of_throws _ _ E) as (complaint & stack & ->).
      eexists _, _. split; [reflexivity|].
      split; [by destruct w as [[u s0 l] lines sent]|].
      intros w0. eexists. split; reflexivity.
Qed.

(** The answer of the profile store reaches a suspended handler. *)
Lemma resume_fetching i userId k r sys :
  pool sys !! i = Some (Some (Handler, Await (SelectUserSingle userId) k)) ->
  fetching k ->
  exists w' c,
    step (Resume i (GotProfile r)) sys
    = Some ({| world := w'; pool := <[i := Some (Handler, Yield c)]> (pool sys) |},
            Suspended)
    /\ auth w' = {| user := if writes_late r then user (auth (world sys))
                            else profile_of (classify r);
                    session := session (auth (world sys));
                    isLoading := isLoading (auth (world sys)) |}
    /\ finishing (writes_late r) c.
Proof.
  intros Hi Hk. destruct (Hk r (world sys)) as (w' & c & Hadv & Hauth & Hc).
  exists w', c. split; [|by split].
  unfold step. rewrite Hi. cbn [fits]. unfold continue. by rewrite Hadv.
Qed.

(** The handler resumes after its [await]: it runs its [finally] block,
    after its [catch] block when [fetchUserProfile] rejected. *)
Lemma resume_clearing i late c sys :
  pool sys !! i = Some (Some (Handler, Yield c)) ->
  finishing late c ->
  exists w',
    step (Resume i Tick) sys
    = Some ({| world := w'; pool := <[i := None]> (pool sys) |}, Completed Handler)
    /\ auth w' = {| user := if late then None else user (auth (world sys));
                    session := session (auth (world sys));
                    isLoading := false |}.
Proof.
  intros Hi Hc. destruct (Hc (world sys)) as (w' & Hadv & Hauth).
  exists w'. split; [|done].
  unfold step. rewrite Hi. unfold continue. by rewrite Hadv.
Qed.

(** A session-change event without a session is handled in one turn. *)
Lemma emit_null ev sys :
  exists w',
    step (Emit ev None) sys
    = Some ({| world := w'; pool := pool sys ++ [None] |}, Completed Handler)
    /\ auth w' = {| user := None; session := None; isLoading := false |}.
Proof.
  eexists. split; reflexivity.
Qed.

(** Symbolic execution of a schedule of handlers, one turn at a time. *)
Ltac turn :=
  cbn [exec app];
  lazymatch goal with
  | |- context [step (Emit ?ev None) ?state] =>
      let w := fresh "w" in
      let Hs := fresh "Hstep" in
      let Ha := fresh "Hauth" in
      destruct (emit_null ev state) as (w & Hs & Ha);
      rewrite Hs; clear Hs
  | |- context [step (Emit ?ev (Some ?s)) ?sys] =>
      let w := fresh "w" in
      let k := fresh "k" in
      let Hs := fresh "Hstep" in
      let Ha := fresh "Hauth" in
      let Hk := fresh "Hfetching" in
      destruct (emit_session ev s sys) as (w & k & Hs & Ha & Hk);
      rewrite Hs; clear Hs
  | |- context [step (Resume ?i (GotProfile ?ans)) ?state] =>
      let w := fresh "w" in
      let c := fresh "c" in
      let Hs := fresh "Hstep" in
      let Ha := fresh "Hauth" in
      let Hc := fresh "Hclearing" in
      let H := fresh in
      eassert (H : _)
        by (eapply (resume_fetching i) with (r := ans) (sys := state);
            [reflexivity | eassumption]);
      destruct H as (w & c & Hs & Ha & Hc); rewrite Hs; clear Hs
  | |- context [step (Resume ?i Tick) ?state] =>
      let w := fresh "w" in
      let Hs := fresh "Hstep" in
      let Ha := fresh "Hauth" in
      let H := fresh in
      eassert (H : _)
        by (eapply (resume_clearing i) with (sys := state);
            [reflexivity | eassumption]);
      destruct H as (w & Hs & Ha); rewrite Hs; clear Hs
  end;
  cbn [world pool fresh app] in *.

Lemma eqb_succ_r (n : nat) : Nat.eqb n (S n) = false.
Proof. apply Nat.eqb_neq. lia. Qed.

Lemma eqb_succ_l (n : nat) : Nat.eqb (S n) n = false.
Proof. apply Nat.eqb_neq. lia. Qed.

(** A fetch that lets [fetchUserProfile] reject stands for no profile. *)
Lemma writes_late_profile (r : Settled SingleResponse) :
  writes_late r = true -> profile_of (classify r) = None.
Proof. destruct r; [discriminate | reflexivity]. Qed.

Ltac settle :=
  cbn [exec final_auth world]; f_equal;
  repeat match goal with
         | H : auth ?w = _ |- context [auth ?w] =>
             rewrite H; clear H; cbn [user session isLoading]
         end;
  repeat match goal with
         | |- context [writes_late ?r] =>
             let H := fresh "Hlate" in
             destruct (writes_late r) eqn:H;
             [rewrite ?(writes_late_profile r H)|]
         end;
  try reflexivity.


(** ** Sign-out: a null session, a late fetch, and [logout] *)

(** C2.  [logout] ends normally and leaves [user] and [session] null and
    [isLoading] false, from every state, whether the provider's [signOut]
    resolves (with or without an error object) or rejects; the same holds
    in the event loop whatever else is in flight when [signOut] settles. *)
Theorem logout_clears_state :
  (forall (env : Oracle) (w : World),
      snd (run env logout w) = Fulfilled tt
      /\ auth (fst (run env logout w))
         = {| user := None; session := None; isLoading := false |})
  /\ (forall (sys : Sys) (o : Settled (option AuthError)),
      final_auth (exec [CallLogout; Resume (length (pool sys)) (GotSignOut o)] sys)
      = Some {| user := None; session := None; isLoading := false |}).
Proof.
  split.
  - intros env w. unfold logout; simpl. destruct (env SignOut); simpl; auto.
  - intros sys o. behind_pool sys. destruct o; reflexivity.
Qed.

(** C8 as stated fails: a fetch started for [sessionA] that finds the row
    of [alice] after the null-session event was handled puts that profile
    back; the state ends with no session and a profile. *)
Lemma stale_profile_after_sign_out :
  final_auth (from_idle [Emit SIGNED_IN (Some sessionA); Emit SIGNED_OUT None])
    = Some {| user := None; session := None; isLoading := false |}
  /\ final_auth (from_idle [Emit SIGNED_IN (Some sessionA); Emit SIGNED_OUT None;
                            Resume 1 (GotProfile (row alice)); Resume 1 Tick])
    = Some {| user := Some alice; session := None; isLoading := false |}.
Proof.
  split; reflexivity.
Qed.

(** C8, amended.  From every state of the event loop, a null-session
    event is handled in one turn that leaves [user] and [session] null and
    [isLoading] false, whatever is in flight.  When the fetch of an earlier
    session-change resolves afterwards, the state ends with [session] null
    and [isLoading] false, and with the profile that fetch stands for: the
    row it found, or null when it found none, was denied or failed. *)
Theorem late_fetch_after_sign_out (sys : Sys) (evA evN : AuthChangeEvent)
    (sA : Session) (r : Settled SingleResponse) :
  let n := length (pool sys) in
  (exists sys', step (Emit evN None) sys = Some (sys', Completed Handler)
     /\ auth (world sys') = {| user := None; session := None; isLoading := false |}
     /\ pool sys' = pool sys ++ [None])
  /\ final_auth (exec [Emit evA (Some sA); Emit evN None] sys)
    = Some {| user := None; session := None; isLoading := false |}
  /\ final_auth (exec [Emit evA (Some sA); Emit evN None;
                      Resume n (GotProfile r); Resume n Tick] sys)
    = Some {| user := profile_of (classify r); session := None; isLoading := false |}.
Proof.
  intros n; subst n. split; [|split].
  - eexists; split; [reflexivity|]. split; reflexivity.
  - behind_pool sys. do 2 turn. settle.
  - behind_pool sys. do 4 turn. settle.
Qed.

(** ** Two sessions in quick succession *)

(** C9 as stated fails: when the fetch for [sessionB] resolves before the
    fetch for [sessionA], the state ends with the session of B and the
    profile of A. *)
Lemma stale_profile_of_first_session :
  final_auth (from_idle [Emit SIGNED_IN (Some sessionA); Emit SIGNED_IN (Some sessionB);
                         Resume 2 (GotProfile (row bob)); Resume 2 Tick;
                         Resume 1 (GotProfile (row alice)); Resume 1 Tick])
    = Some {| user := Some alice; session := Some sessionB; isLoading := false |}
  /\ id alice <> uid (session_user sessionB).
Proof.
  split; [reflexivity | discriminate].
Qed.

(** C9, amended.  Two session-change events, for A and then for B, are
    handled before either profile fetch resolves.  In each of the six
    orders in which the two fetches and the two resumptions that follow
    them can be scheduled, the state ends with the session of B and
    [isLoading] false, and its profile is the one of the handler that
    wrote last.  That is the handler whose fetch resolved last (B's when
    A's fetch resolves first, A's when it resolves after B's), unless a
    fetch rejects with a value that the [catch] of [fetchUserProfile]
    cannot convert: its handler then writes the null profile one turn
    later, when it is resumed.  When the two handlers run one after the
    other the profile is the one of the later fetch, whatever the
    answers. *)
Theorem last_fetch_wins (sys : Sys) (evA evB : AuthChangeEvent)
    (sA sB : Session) (rA rB : Settled SingleResponse) :
  let n := length (pool sys) in
  Forall
    (fun sched =>
       final_auth (exec ([Emit evA (Some sA); Emit evB (Some sB)] ++ sched) sys)
       = match last_written [] sched None with
         | Some r => Some {| user := profile_of (classify r);
                             session := Some sB; isLoading := false |}
         | None => None
         end
       /\ (writes_late rA = false -> writes_late rB = false ->
           last_written [] sched None = last_profile sched))
    (interleave [Resume n (GotProfile rA); Resume n Tick]
                [Resume (S n) (GotProfile rB); Resume (S n) Tick])
  /\ final_auth (exec [Emit evA (Some sA); Emit evB (Some sB);
                      Resume n (GotProfile rA); Resume n Tick;
                      Resume (S n) (GotProfile rB); Resume (S n) Tick] sys)
    = Some {| user := profile_of (classify rB); session := Some sB;
              isLoading := false |}
  /\ final_auth (exec [Emit evA (Some sA); Emit evB (Some sB);
                      Resume (S n) (GotProfile rB); Resume (S n) Tick;
                      Resume n (GotProfile rA); Resume n Tick] sys)
    = Some {| user := profile_of (classify rA); session := Some sB;
              isLoading := false |}.
Proof.
  intros n; subst n. split; [|split].
  - cbn [interleave map app].
    repeat constructor; cbn [last_profile app].
    all: try (intros HA HB; cbn [last_written]; rewrite ?HA, ?HB; reflexivity).
    all: behind_pool sys; do 6 turn; cbn [exec final_auth world];
      repeat match goal with
             | H : auth ?w = _ |- context [auth ?w] =>
                 rewrite H; clear H; cbn [user session isLoading]
             end;
      cbn [last_written]; pose proof (writes_late_profile rA) as HA;
      pose proof (writes_late_profile rB) as HB;
      destruct (writes_late rA), (writes_late rB);
      cbn [last_written find fst];
      rewrite ?Nat.eqb_refl, ?eqb_succ_r, ?eqb_succ_l; cbn [find fst last_written];
      rewrite ?Nat.eqb_refl, ?eqb_succ_r, ?eqb_succ_l; cbn [find fst last_written];
      rewrite ?HA, ?HB by reflexivity; reflexivity.
  - behind_pool sys; do 6 turn; settle.
  - behind_pool sys; do 6 turn; settle.
Qed.

(** ** The profile fetch *)

(** The handler of a session-change event with a session, played alone:
    it ends normally in the state made of that session, the profile its
    fetch stands for, and [isLoading] false. *)
Lemma handler_run (env : Oracle) (ev : AuthChangeEvent) (s : Session) (w : World) :
  snd (run env (onAuthStateChange ev (Some s)) w) = Fulfilled tt
  /\ auth (fst (run env (onAuthStateChange ev (Some s)) w))
     = {| user := profile_of (classify (env (SelectUserSingle (uid (session_user s)))));
          session := Some s; isLoading := false |}.
Proof.
  unfold onAuthStateChange, fetchUserProfile.
  cbn -[String.eqb or_else].
  destruct (env (SelectUserSingle _)) as [[data [err|]]|x];
    cbn -[String.eqb or_else message_of instanceofError].
  - destruct (String.eqb _ "PGRST116"); [|destruct (String.eqb _ "42501")];
      split; reflexivity.
  - destruct data; split; reflexivity.
  - unfold read_message, log_stack.
    destruct (message_of x) as [text|thrown] eqn:E.
    + destruct (instanceofError x); split; reflexivity.
    + destruct (message_of_throws _ _ E) as (complaint & stack & ->).
      split; reflexivity.
Qed.

(** C3.  The claim fails on this input: the request rejects with a value
    that [String()] cannot convert, here [Object.create(null)].  The
    [catch] block of [fetchUserProfile], written to log the error and to
    clear the profile, throws at its first statement: the promise is
    rejected with a [TypeError] and [user] keeps the profile of [alice];
    nothing was logged but the line that opens the fetch.  The superseded
    copy rejects as well when [JSON.stringify] refuses the value, here a
    [BigInt]. *)
Lemma fetchUserProfile_rejects :
  run (rejecting bare_object) (fetchUserProfile "u-a") signed_in
  = ({| auth := {| user := Some alice; session := Some sessionA; isLoading := false |};
        console := [(LOG, "[Auth] Fetching profile for user:")];
        requests := [SelectUserSingle "u-a"] |},
     Rejected (TypeError "Cannot convert object to primitive value"
                 "TypeError: Cannot convert object to primitive value"))
  /\ snd (run (rejecting big_number) (Superseded.fetchUserProfile "u-a") signed_in)
     = Rejected (TypeError "Do not know how to serialize a BigInt"
                   "TypeError: Do not know how to serialize a BigInt")
  /\ user (auth (fst (run (rejecting big_number)
                         (Superseded.fetchUserProfile "u-a") signed_in)))
     = Some alice.
Proof.
  repeat split; reflexivity.
Qed.

(** X30.  The answer of the profile store falls in exactly one of
    the classes found, not found ([PGRST116]), permission denied ([42501])
    and other failure.  Unless the request rejects with a value that
    [String()] cannot convert, [fetchUserProfile] ends normally: also on an
    error object with any code and when the request throws an [Error] or
    any other value; the console carries the line of the class and of no
    other; [user] becomes the row that was found and null in every other
    class; [session] and [isLoading] are not touched.  When the request
    rejects with a value that [String()] cannot convert, [fetchUserProfile]
    rejects with the [TypeError] of the conversion and writes no state
    cell.  The superseded copy, which rethrows unknown errors into its own
    [catch], does the same, and rejects also when [JSON.stringify] refuses
    the value.  In every case the handler of a session-change event for
    that subject ends, without an exception, in the state with the
    session, that profile (none when the subject has no row or the fetch
    failed in any way) and [isLoading] false. *)
Theorem fetchUserProfile_classifies (env : Oracle) (userId : string) (w : World) :
  let s := env (SelectUserSingle userId) in
  let new := run env (fetchUserProfile userId) w in
  let old := run env (Superseded.fetchUserProfile userId) w in
  let refused :=
    match s with
    | Rejected e => negb (printable e && serializable e)
    | Fulfilled _ => false
    end in
  let classified :=
    {| user := profile_of (classify s); session := session (auth w);
       isLoading := isLoading (auth w) |} in
  (if writes_late s
   then (exists complaint stack, snd new = Rejected (TypeError complaint stack))
        /\ auth (fst new) = auth w
   else snd new = Fulfilled tt
        /\ auth (fst new) = classified
        /\ exists lines, console (fst new) = console w ++ lines
             /\ forall o, In (verdict_line o) lines
                          <-> verdict_line o = verdict_line (classify s))
  /\ (if refused
      then (exists complaint stack, snd old = Rejected (TypeError complaint stack))
           /\ auth (fst old) = auth w
      else snd old = Fulfilled tt /\ auth (fst old) = classified)
  /\ (forall ev mail token,
      let sess := {| session_user := {| uid := userId; auth_email := mail |};
                     access_token := token |} in
      snd (run env (onAuthStateChange ev (Some sess)) w) = Fulfilled tt
      /\ auth (fst (run env (onAuthStateChange ev (Some sess)) w))
         = {| user := profile_of (classify s); session := Some sess;
              isLoading := false |}).
Proof.
  cbv zeta. split; [|split; [|intros ev mail token; apply handler_run]].
  - unfold fetchUserProfile.
    cbn -[String.eqb or_else verdict_line In message_of instanceofError].
    destruct (env (SelectUserSingle userId)) as [[data [err|]]|e];
      cbn -[String.eqb or_else verdict_line In message_of instanceofError].
    + destruct (String.eqb _ "PGRST116"); [|destruct (String.eqb _ "42501")];
        cbn -[verdict_line In]; rewrite <- !app_assoc;
        (repeat split; try reflexivity; eexists; split; [reflexivity|]);
        intros [?| | |[]]; cbn; intuition (discriminate || auto).
    + destruct data;
        cbn -[verdict_line In]; rewrite <- !app_assoc;
        (repeat split; try reflexivity; eexists; split; [reflexivity|]);
        intros [?| | |[]]; cbn; intuition (discriminate || auto).
    + unfold printable, read_message, log_stack.
      destruct (message_of e) as [text|thrown] eqn:E; cbn [negb].
      * destruct (instanceofError e);
          cbn -[verdict_line In]; rewrite <- ?app_assoc;
          (repeat split; try reflexivity; eexists; split; [reflexivity|]);
          intros [?| | |[]]; cbn; intuition (discriminate || auto).
      * destruct (message_of_throws _ _ E) as (complaint & stack & ->).
        split; [eauto|]. by destruct w as [[u s0 l] lines sent].
  - unfold Superseded.fetchUserProfile.
    cbn -[String.eqb or_else message_of stringify].
    destruct (env (SelectUserSingle userId)) as [[data [err|]]|e];
      cbn -[String.eqb or_else message_of stringify].
    + destruct (String.eqb _ "PGRST116"); [|destruct (String.eqb _ "42501")];
        split; reflexivity.
    + destruct data; split; reflexivity.
    + unfold printable, serializable, read_message, json_stringify.
      destruct (message_of e) as [text|thrown] eqn:E; cbn [negb andb].
      * destruct (stringify e) as [thrown|] eqn:E'; cbn [negb].
        -- destruct (stringify_throws _ _ E') as (complaint & stack & ->).
           split; [eauto|]. by destruct w as [[u s0 l] lines sent].
        -- split; reflexivity.
      * destruct (message_of_throws _ _ E) as (complaint & stack & ->).
        split; [eauto|]. by destruct w as [[u s0 l] lines sent].
Qed.

(** ** [login], [signup] and [refreshUser] *)




(** C10.  Without a session [refreshUser] does nothing: it sends no
    request (no profile store read), writes nothing, and ends at once;
    state, console and pool of calls in flight are as before. *)
Theorem refreshUser_without_session :
  (forall (env : Oracle) (w : World),
      run env (refreshUser None) w = (w, Fulfilled tt))
  /\ (forall sys : Sys,
      session (auth (world sys)) = None ->
      step CallRefreshUser sys
      = Some ({| world := world sys; pool := pool sys ++ [None] |},
              Completed RefreshUser)).
Proof.
  split.
  - reflexivity.
  - intros sys Hnone. unfold step. rewrite Hnone. reflexivity.
Qed.

(** C10 right after mounting, where no session is known yet. *)
Lemma refreshUser_without_session_witness :
  step CallRefreshUser mounted
  = Some ({| world := world mounted; pool := pool mounted ++ [None] |},
          Completed RefreshUser).
Proof.
  exact (proj2 refreshUser_without_session mounted eq_refl).
Defined.

(** * Further properties of the code *)

(** ** The earlier revision of the reconciler *)

Lemma raises_fetchUserProfile_008 userId :
  raises tame (Superseded.fetchUserProfile userId).
Proof.
  apply raises_try_catch. intros e. apply raises_read_message. intros _.
  cbn [raises]. apply raises_json_stringify. exact I.
Qed.

Lemma settles_onAuthStateChange_008 ev s :
  settles false (Revision008.onAuthStateChange ev s).
Proof.
  unfold Revision008.onAuthStateChange. cbn [settles].
  apply settles_finally.
  - apply (nothrow_try_catch_raises tame).
    + cbn [raises]. destruct s as [s|]; cbn [raises]; [|exact I].
      apply raises_await_async, raises_fetchUserProfile_008.
    + intros e [Hp Hs]. apply nothrow_read_message; [exact Hp|]. intros _.
      cbn [nothrow]. apply nothrow_json_stringify; [exact Hs | exact I].
  - intros c; simpl; auto.
Qed.

(** X1.  The session-change handler of the earlier revision (part_008),
    whose [fetchUserProfile] throws unexpected errors again, ends like the
    current one in every environment: its promise is fulfilled,
    [isLoading] is false, and it leaves the same state and has sent the
    same requests as the current handler. *)
Theorem earlier_handler_agrees (env : Oracle) (ev : AuthChangeEvent)
    (s : option Session) (w : World) :
  let old := run env (Revision008.onAuthStateChange ev s) w in
  let new := run env (onAuthStateChange ev s) w in
  snd old = Fulfilled tt
  /\ isLoading (auth (fst old)) = false
  /\ auth (fst old) = auth (fst new)
  /\ requests (fst old) = requests (fst new).
Proof.
  cbv zeta.
  destruct (run_settles env _ false w (settles_onAuthStateChange_008 ev s)
              ltac:(discriminate)) as [Hres Hload].
  split; [exact Hres|]. split; [exact Hload|].
  unfold Revision008.onAuthStateChange, onAuthStateChange,
    Superseded.fetchUserProfile, fetchUserProfile.
  destruct s as [s|]; [|split; reflexivity].
  cbn -[String.eqb or_else message_of stringify instanceofError].
  destruct (env (SelectUserSingle _)) as [[data [err|]]|x];
    cbn -[String.eqb or_else message_of stringify instanceofError].
  - destruct (String.eqb _ "PGRST116"); [|destruct (String.eqb _ "42501")];
      split; reflexivity.
  - destruct data; split; reflexivity.
  - unfold read_message, json_stringify, log_stack.
    destruct (message_of x) as [text|thrown] eqn:E.
    + destruct (stringify x) as [thrown|] eqn:E';
        [destruct (stringify_throws _ _ E') as (complaint & stack & ->)|];
        destruct (instanceofError x); split; reflexivity.
    + destruct (message_of_throws _ _ E) as (complaint & stack & ->).
      split; reflexivity.
Qed.

(** ** The results of [login] and [signup] *)

(** X2.  [login] returns [{ error: null }] exactly when the provider
    answered with a session and no error; a message it returns is never
    empty, and a non-empty message of the provider is returned as it
    is. *)
Theorem login_result (env : Oracle) (e p : string) (w : World) :
  (snd (run env (login e p) w) = Fulfilled None
   <-> exists s, env (SignInWithPassword e p)
                 = Fulfilled {| signin_session := Some s; signin_error := None |})
  /\ (forall msg, snd (run env (login e p) w) = Fulfilled (Some msg) -> msg <> "")
  /\ (forall err sess,
        env (SignInWithPassword e p)
        = Fulfilled {| signin_session := sess; signin_error := Some err |} ->
        auth_message err <> "" ->
        snd (run env (login e p) w) = Fulfilled (Some (auth_message err))).
Proof.
  assert (Hor : forall m d, d <> "" -> or_else m d <> "").
  { intros m d Hd. unfold or_else.
    destruct (String.eqb_spec m ""); congruence. }
  unfold login; cbn -[or_else message_of].
  destruct (env (SignInWithPassword e p)) as [[sess [err|]]|x];
    cbn -[or_else message_of].
  - split; [split; [discriminate | intros [s H]; discriminate]|]. split.
    + intros msg [= <-]. by apply Hor.
    + intros err' sess' [= -> ->] Hne. unfold or_else.
      destruct (String.eqb_spec (auth_message err') ""); congruence.
  - destruct sess as [s|]; cbn.
    + split; [split; eauto|]. split; [discriminate | discriminate].
    + split; [split; [discriminate | intros [s H]; discriminate]|].
      split; [intros msg [= <-]; discriminate | discriminate].
  - unfold read_message. destruct (message_of x) as [text|thrown]; cbn.
    + split; [split; [discriminate | intros [s H]; discriminate]|].
      split; [intros msg [= <-]; discriminate | discriminate].
    + split; [split; [discriminate | intros [s H]; discriminate]|].
      split; [intros msg H; discriminate | discriminate].
Qed.

(** X3.  The two revisions of [login] return the same result unless
    [signInWithPassword] rejects.  When it rejects with a value that
    [String()] converts, the current one returns a fixed text; part_008
    returns the text of the exception, or its longer fixed text when that
    is empty, unless [JSON.stringify] refuses the value: then its [catch]
    throws and the promise is rejected with a [TypeError].  When
    [String()] cannot convert the value, both reject with the [TypeError]
    of the conversion.  The earlier [login] too writes no state cell and
    sends the one sign-in request. *)
Theorem login_revisions (env : Oracle) (e p : string) (w : World) :
  let new := snd (run env (login e p) w) in
  let old := snd (run env (Revision008.login e p) w) in
  match env (SignInWithPassword e p) with
  | Fulfilled _ => old = new
  | Rejected error =>
      match message_of error with
      | inl text =>
          new = Fulfilled (Some "An unexpected error occurred")
          /\ if serializable error
             then old = Fulfilled (Some (or_else text
                    "An unexpected error occurred. Check browser console for details."))
             else exists complaint stack, old = Rejected (TypeError complaint stack)
      | inr thrown =>
          new = Rejected thrown /\ old = Rejected thrown
          /\ exists complaint stack, thrown = TypeError complaint stack
      end
  end
  /\ auth (fst (run env (Revision008.login e p) w)) = auth w
  /\ requests (fst (run env (Revision008.login e p) w))
     = requests w ++ [SignInWithPassword e p].
Proof.
  cbv zeta. unfold login, Revision008.login; cbn -[or_else message_of stringify].
  destruct (env (SignInWithPassword e p)) as [[[s|] [err|]]|x];
    cbn -[or_else message_of stringify]; try (repeat split; reflexivity).
  unfold read_message, json_stringify, serializable.
  destruct (message_of x) as [text|thrown] eqn:E.
  - destruct (stringify x) as [thrown|] eqn:E'; cbn -[or_else];
      [destruct (stringify_throws _ _ E') as (complaint & stack & ->)|];
      repeat split; eauto.
  - cbn. repeat split; eauto using message_of_throws.
Qed.

(** X4.  [signup] returns [{ error: null }] exactly when [signUp] gave a
    user and no error and the insert of the profile row was fulfilled
    without error.  The row is sent exactly when [signUp] gave a user and
    no error, after the sign-up request; nothing else is sent. *)
Theorem signup_result (env : Oracle) (e p n : string) (w : World) :
  let row u := {| row_id := uid u; row_email := e; row_fullName := n;
                  row_role := "user"; row_isActive := true;
                  row_canWriteTestimonial := false |} in
  let sent := requests (fst (run env (signup e p n) w)) in
  (snd (run env (signup e p n) w) = Fulfilled None
   <-> exists u, env (SignUp e p)
                 = Fulfilled {| signup_user := Some u; signup_error := None |}
                 /\ env (InsertUser (row u)) = Fulfilled None)
  /\ ((exists u, env (SignUp e p)
                = Fulfilled {| signup_user := Some u; signup_error := None |}
                /\ sent = requests w ++ [SignUp e p; InsertUser (row u)])
      \/ ((forall u, env (SignUp e p)
                     <> Fulfilled {| signup_user := Some u; signup_error := None |})
          /\ sent = requests w ++ [SignUp e p])).
Proof.
  cbv zeta. unfold signup; cbn.
  destruct (env (SignUp e p)) as [[[u|] [err|]]|x] eqn:Hup; cbn.
  - split; [split; [discriminate | intros (u' & H & _); discriminate]|].
    right. split; [intros u'; discriminate | reflexivity].
  - destruct (env (InsertUser _)) as [[err|]|x] eqn:Hins; cbn.
    + split.
      * split; [discriminate|]. intros (u' & [= <-] & H). congruence.
      * left. exists u. split; [reflexivity | by rewrite <- app_assoc].
    + split.
      * split; [|reflexivity]. intros _. exists u. split; [reflexivity | exact Hins].
      * left. exists u. split; [reflexivity | by rewrite <- app_assoc].
    + split.
      * split; [discriminate|]. intros (u' & [= <-] & H). congruence.
      * left. exists u. split; [reflexivity | by rewrite <- app_assoc].
  - split; [split; [discriminate | intros (u' & H & _); discriminate]|].
    right. split; [intros u'; discriminate | reflexivity].
  - split; [split; [discriminate | intros (u' & H & _); discriminate]|].
    right. split; [intros u'; discriminate | reflexivity].
  - split; [split; [discriminate | intros (u' & H & _); discriminate]|].
    right. split; [intros u'; discriminate | reflexivity].
Qed.

(** X5.  [initializeAuth] is always fulfilled and ends with [isLoading]
    false.  With a stored session it stores that session and, after two
    requests, the profile the answer of the store sorts to; when that
    answer lets [fetchUserProfile] reject, its own [catch] logs the
    rejection and [user] is left as it was.  Without a stored session it
    stores the null session and leaves [user]; when [getSession] rejects
    it leaves both cells and sends nothing more. *)
Theorem initializeAuth_restores (env : Oracle) (w : World) :
  snd (run env initializeAuth w) = Fulfilled tt
  /\ auth (fst (run env initializeAuth w))
     = match env GetSession with
       | Fulfilled (Some s) =>
           let r := env (SelectUserSingle (uid (session_user s))) in
           {| user := if writes_late r then user (auth w)
                      else profile_of (classify r);
              session := Some s; isLoading := false |}
       | Fulfilled None =>
           {| user := user (auth w); session := None; isLoading := false |}
       | Rejected _ =>
           {| user := user (auth w); session := session (auth w);
              isLoading := false |}
       end
  /\ requests (fst (run env initializeAuth w))
     = match env GetSession with
       | Fulfilled (Some s) =>
           requests w ++ [GetSession; SelectUserSingle (uid (session_user s))]
       | _ => requests w ++ [GetSession]
       end.
Proof.
  unfold initializeAuth, fetchUserProfile;
    cbn -[String.eqb or_else message_of instanceofError].
  destruct (env GetSession) as [[s|]|x];
    cbn -[String.eqb or_else message_of instanceofError];
    [|repeat split; reflexivity..].
  destruct (env (SelectUserSingle _)) as [[data [err|]]|x];
    cbn -[String.eqb or_else message_of instanceofError].
  - destruct (String.eqb _ "PGRST116"); [|destruct (String.eqb _ "42501")];
      repeat split; cbn; rewrite <- ?app_assoc; reflexivity.
  - destruct data; repeat split; cbn; rewrite <- ?app_assoc; reflexivity.
  - unfold printable, read_message, log_stack.
    destruct (message_of x) as [text|thrown] eqn:E.
    + destruct (instanceofError x);
        repeat split; cbn; rewrite <- ?app_assoc; reflexivity.
    + destruct (message_of_throws _ _ E) as (complaint & stack & ->).
      repeat split; cbn; rewrite <- ?app_assoc; reflexivity.
Qed.

(** X6.  With a session, [refreshUser] sends one profile request and
    writes neither [session] nor [isLoading] (and never [true] to
    [isLoading]).  It sets [user] to what the answer sorts to and is
    fulfilled, unless the request rejects with a value that [String()]
    cannot convert: then its promise is rejected with the [TypeError] of
    the conversion and [user] keeps the profile it had. *)
Theorem refreshUser_refetches (env : Oracle) (s : Session) (w : World) :
  let r := env (SelectUserSingle (uid (session_user s))) in
  let after := fst (run env (refreshUser (Some s)) w) in
  (if writes_late r
   then (exists complaint stack,
           snd (run env (refreshUser (Some s)) w)
           = Rejected (TypeError complaint stack))
        /\ auth after = auth w
   else snd (run env (refreshUser (Some s)) w) = Fulfilled tt
        /\ auth after
           = {| user := profile_of (classify r); session := session (auth w);
                isLoading := isLoading (auth w) |})
  /\ requests after = requests w ++ [SelectUserSingle (uid (session_user s))]
  /\ calm (refreshUser (Some s)).
Proof.
  cbv zeta. split; [|split].
  3: { apply calm_await_async, calm_fetchUserProfile. }
  all: unfold refreshUser, fetchUserProfile;
    cbn -[String.eqb or_else message_of instanceofError];
    destruct (env (SelectUserSingle _)) as [[data [err|]]|x];
    cbn -[String.eqb or_else message_of instanceofError];
    [ destruct (String.eqb _ "PGRST116"); [|destruct (String.eqb _ "42501")]
    | destruct data
    | unfold printable, read_message, log_stack;
      destruct (message_of x) as [text|thrown] eqn:E;
      [ destruct (instanceofError x)
      | destruct (message_of_throws _ _ E) as (complaint & stack & ->) ] ];
    cbn; try (split; reflexivity); try reflexivity.
  split; [eauto|]. by destruct w as [[u s0 l] lines sent].
Qed.

(** ** Session changes handled one at a time *)

Lemma exec_app (l1 l2 : list Input) :
  forall sys,
  exec (l1 ++ l2) sys
  = match exec l1 sys with
    | Some sys' => exec l2 sys'
    | None => None
    end.
Proof.
  induction l1 as [|inp l1 IH]; intros sys; cbn [app exec]; [done|].
  destruct (step inp sys) as [[sys' status]|]; [apply IH | done].
Qed.

(** One event and the turns of its handler: the handler ends, in its own
    slot, and leaves the state of that event. *)
Lemma deliver_ends (d : OneByOne.Delivery) (sys : Sys) :
  exists sys',
    exec (OneByOne.deliver (length (pool sys)) d) sys = Some sys'
    /\ auth (world sys') = OneByOne.settled_state d
    /\ length (pool sys') = S (length (pool sys)).
Proof.
  destruct d as [[ev [s|]] r]; cbn [OneByOne.deliver OneByOne.settled_state exec].
  - destruct (emit_session ev s sys) as (w1 & k & Hstep1 & Hauth1 & Hk).
    rewrite Hstep1.
    match goal with |- context [step _ ?state] =>
      destruct (resume_fetching (length (pool sys)) _ k r state)
        as (w2 & c & Hstep2 & Hauth2 & Hc);
        [cbn [pool]; apply lookup_snoc | exact Hk |]
    end.
    rewrite Hstep2. cbn [pool world] in *.
    match goal with |- context [step _ ?state] =>
      destruct (resume_clearing (length (pool sys)) (writes_late r) c state)
        as (w3 & Hstep3 & Hauth3);
        [cbn [pool]; apply list_lookup_insert_eq; rewrite length_app; simpl; lia
        | exact Hc |]
    end.
    rewrite Hstep3. cbn [pool world] in *.
    eexists. split; [reflexivity|]. cbn [world pool]. split.
    + rewrite Hauth3, Hauth2, Hauth1. cbn [user session isLoading].
      pose proof (writes_late_profile r) as Hlate.
      destruct (writes_late r); [by rewrite Hlate|reflexivity].
    + rewrite !length_insert, length_app. simpl. lia.
  - destruct (emit_null ev sys) as (w1 & Hstep1 & Hauth1).
    rewrite Hstep1. eexists. split; [reflexivity|]. cbn [world pool].
    split; [exact Hauth1|]. rewrite length_app. simpl. lia.
Qed.

Lemma one_by_one_runs (ds : list OneByOne.Delivery) :
  forall sys, exists sys',
    exec (OneByOne.one_by_one (length (pool sys)) ds) sys = Some sys'
    /\ length (pool sys') = length (pool sys) + length ds.
Proof.
  induction ds as [|d ds IH]; intros sys; cbn [OneByOne.one_by_one].
  - exists sys. split; [reflexivity | simpl; lia].
  - destruct (deliver_ends d sys) as (sys1 & Hexec & _ & Hlen).
    rewrite exec_app, Hexec, <- Hlen.
    destruct (IH sys1) as (sys2 & Hexec2 & Hlen2).
    exists sys2. split; [exact Hexec2|]. rewrite Hlen2, Hlen. simpl. lia.
Qed.

Lemma one_by_one_app (ds1 ds2 : list OneByOne.Delivery) :
  forall slot,
  OneByOne.one_by_one slot (ds1 ++ ds2)
  = OneByOne.one_by_one slot ds1 ++ OneByOne.one_by_one (slot + length ds1) ds2.
Proof.
  induction ds1 as [|d ds1 IH]; intros slot; cbn [OneByOne.one_by_one app length].
  - by rewrite Nat.add_0_r.
  - rewrite IH, <- app_assoc. do 3 f_equal. lia.
Qed.

(** X7.  When session changes are handled one at a time, the handler of
    each ending before the next event arrives, the schedule runs from any
    state of the provider, whatever else is in flight and left alone, and
    the state at its end is the one of the last event: its session, the
    profile its fetch sorts to, and [isLoading] false. *)
Theorem one_by_one_last_event_decides (sys : Sys) (ds : list OneByOne.Delivery)
    (d : OneByOne.Delivery) :
  final_auth (exec (OneByOne.one_by_one (length (pool sys)) (ds ++ [d])) sys)
  = Some (OneByOne.settled_state d).
Proof.
  rewrite one_by_one_app, exec_app.
  destruct (one_by_one_runs ds sys) as (sys1 & Hexec & Hlen).
  rewrite Hexec, <- Hlen. cbn [OneByOne.one_by_one]. rewrite app_nil_r.
  destruct (deliver_ends d sys1) as (sys2 & Hexec2 & Hauth & _).
  rewrite Hexec2. cbn [final_auth]. by rewrite Hauth.
Qed.

(** ** Password recovery *)

(** X8.  [verifyOTP] is always fulfilled; it sends nothing but the
    verification and the password update, the update exactly when the
    verification was fulfilled without error, and it returns
    [{ error: null }] exactly when both were. *)
Theorem verifyOTP_updates_after_verification (env : Recovery.Provider)
    (email token newPassword : string) :
  let verify := Recovery.VerifyOtp email token "recovery" in
  let update := Recovery.UpdateUser newPassword in
  let out := Recovery.perform (Recovery.verifyOTP email token newPassword) env in
  (exists res, snd out = Fulfilled res)
  /\ (forall r, In r (fst out) -> r = verify \/ r = update)
  /\ (In update (fst out) <-> env verify = Fulfilled None)
  /\ (snd out = Fulfilled None
      <-> env verify = Fulfilled None /\ env update = Fulfilled None).
Proof.
  cbv zeta. unfold Recovery.perform, Recovery.verifyOTP, Recovery.catch,
    Recovery.seq, Recovery.call, Recovery.pure; cbn.
  destruct (env (Recovery.VerifyOtp email token "recovery")) as [[e|]|x]; cbn.
  - split; [eauto|]. split; [intros r [<-|[]]; auto|].
    split; [split; [intros [H|[]]; discriminate | discriminate]|].
    split; [discriminate | intros [H _]; discriminate].
  - destruct (env (Recovery.UpdateUser newPassword)) as [[e|]|x]; cbn;
      (split; [eauto|]); (split; [intros r [<-|[<-|[]]]; auto|]);
      (split; [split; auto|]).
    + split; [discriminate | intros [_ H]; discriminate].
    + split; auto.
    + split; [discriminate | intros [_ H]; discriminate].
  - split; [eauto|]. split; [intros r [<-|[]]; auto|].
    split; [split; [intros [H|[]]; discriminate | discriminate]|].
    split; [discriminate | intros [H _]; discriminate].
Qed.

(** X9.  [sendOTP] and [resetPassword] are always fulfilled and send one
    request each: a one-time password that never creates a user, and a
    reset mail that leads back to [/reset-password] of the page's origin.
    Each returns [{ error: null }] exactly when its request was fulfilled
    without error, and the message of the provider's error otherwise. *)
Theorem sendOTP_resetPassword_report (env : Recovery.Provider)
    (origin email : string) :
  let otp := Recovery.SignInWithOtp email false in
  let reset := Recovery.ResetPasswordForEmail email (origin ++ "/reset-password")%string in
  let sent := Recovery.perform (Recovery.sendOTP email) env in
  let asked := Recovery.perform (Recovery.resetPassword origin email) env in
  fst sent = [otp] /\ fst asked = [reset]
  /\ (exists res, snd sent = Fulfilled res
                  /\ (res = None <-> env otp = Fulfilled None))
  /\ (exists res, snd asked = Fulfilled res
                  /\ (res = None <-> env reset = Fulfilled None))
  /\ (forall err, env otp = Fulfilled (Some err) ->
        snd sent = Fulfilled (Some (auth_message err)))
  /\ (forall err, env reset = Fulfilled (Some err) ->
        snd asked = Fulfilled (Some (auth_message err))).
Proof.
  cbv zeta. unfold Recovery.perform, Recovery.sendOTP, Recovery.resetPassword,
    Recovery.catch, Recovery.seq, Recovery.call, Recovery.pure; cbn.
  destruct (env (Recovery.SignInWithOtp email false)) as [[e|]|x];
    destruct (env (Recovery.ResetPasswordForEmail _ _)) as [[e'|]|x']; cbn;
    repeat split; try discriminate; try congruence;
    eexists; (split; [reflexivity|]); split; congruence.
Qed.

(** ** The display name of a session *)

Import SessionName.

Lemma or_else_empty (s : string) : or_else s "" = s.
Proof. unfold or_else. by destruct (String.eqb_spec s ""). Qed.

Lemma or_else_nonempty (s d : string) : s <> "" -> or_else s d = s.
Proof. intros Hs. unfold or_else. by destruct (String.eqb_spec s ""). Qed.

Lemma append_String (c : ascii) (a b : string) :
  (String c a ++ b)%string = String c (a ++ b)%string.
Proof. reflexivity. Qed.

Lemma append_empty (b : string) : ("" ++ b)%string = b.
Proof. reflexivity. Qed.

Lemma append_assoc (a b c : string) :
  ((a ++ b) ++ c)%string = (a ++ (b ++ c))%string.
Proof.
  induction a as [|x a IH]; [reflexivity|].
  by rewrite !append_String, IH.
Qed.

Lemma every_impl (P Q : ascii -> Prop) (s : string) :
  (forall c, P c -> Q c) -> every P s -> every Q s.
Proof. intros HPQ. induction s as [|c s IH]; simpl; intuition auto. Qed.

Lemma every_app (P : ascii -> Prop) (a b : string) :
  every P a -> every P b -> every P (a ++ b)%string.
Proof. induction a as [|c a IH]; simpl; intuition auto. Qed.

Lemma split_on_every (sep : ascii) (s : string) :
  every (fun c => c <> sep) s -> split_on sep s = [s].
Proof.
  induction s as [|c s IH]; simpl; [done|]. intros [Hc Hs].
  destruct (Ascii.eqb_spec c sep); [done|]. by rewrite IH.
Qed.

Lemma split_on_app (sep : ascii) (a b : string) :
  every (fun c => c <> sep) a ->
  split_on sep (a ++ String sep b)%string = a :: split_on sep b.
Proof.
  induction a as [|c a IH]; simpl.
  - intros _. by rewrite Ascii.eqb_refl.
  - intros [Hc Ha]. destruct (Ascii.eqb_spec c sep); [done|]. by rewrite IH.
Qed.

(** *** The two methods within ASCII *)

Lemma upper_keeps_nonspace (c : ascii) :
  ascii_space c = false -> ascii_space (ascii_upper c) = false.
Proof.
  destruct c as [[] [] [] [] [] [] [] []]; vm_compute; congruence.
Qed.

Lemma upper_keeps_ascii (c : ascii) :
  is_ascii c = true -> is_ascii (ascii_upper c) = true.
Proof.
  destruct c as [[] [] [] [] [] [] [] []]; vm_compute; congruence.
Qed.

Lemma trimEnd_nospace (s : string) :
  every (fun c => ascii_space c = false) s -> ascii_trimEnd s = s.
Proof.
  induction s as [|c s IH]; simpl; [done|]. intros [Hc Hs].
  rewrite (IH Hs). destruct s; [by rewrite Hc | done].
Qed.

Lemma trimEnd_app_nospace (a b : string) :
  b <> "" -> every (fun c => ascii_space c = false) b ->
  ascii_trimEnd (a ++ b)%string = (a ++ b)%string.
Proof.
  intros Hb Hns. induction a as [|c a IH].
  - by apply trimEnd_nospace.
  - change (String c a ++ b)%string with (String c (a ++ b)).
    cbn [ascii_trimEnd]. rewrite IH. destruct (a ++ b)%string eqn:E; [|done].
    destruct a, b; cbv [String.append] in E; congruence.
Qed.

Lemma trimEnd_app_space (a : string) :
  ascii_trimEnd (a ++ " ")%string = ascii_trimEnd a.
Proof.
  induction a as [|c a IH]; [done|].
  change (String c a ++ " ")%string with (String c (a ++ " ")).
  cbn [ascii_trimEnd]. by rewrite IH.
Qed.

(** A plain part with its first letter in upper case: not empty, ASCII,
    no white space, and it does not start with white space. *)
Lemma capitalised_plain (p : string) :
  plain p -> p <> "" ->
  let name := capitalised ascii_toUpperCase (Some p) in
  name <> ""
  /\ every (fun c => ascii_space c = false) name
  /\ ascii_trimStart (name ++ " ")%string = (name ++ " ")%string
  /\ ascii_text name.
Proof.
  intros Hp Hne. destruct p as [|c p]; [done|].
  destruct Hp as [(_ & _ & Hc & Ha) Hp].
  cbv zeta. unfold capitalised. rewrite or_else_empty.
  cbn [charAt0 slice1 ascii_toUpperCase].
  rewrite !append_String, append_empty. unfold ascii_text. cbn [every].
  pose proof (upper_keeps_nonspace c Hc) as Hu.
  pose proof (upper_keeps_ascii c Ha) as Hu'.
  split; [done|]. split; [|split].
  - split; [done|]. eapply every_impl; [|exact Hp]. by intros x (_ & _ & Hx & _).
  - cbn [ascii_trimStart]. by rewrite Hu.
  - split; [done|]. eapply every_impl; [|exact Hp]. by intros x (_ & _ & _ & Hx).
Qed.

Lemma trimStart_app (a b : string) :
  ascii_trimStart (a ++ " ")%string = (a ++ " ")%string ->
  a <> "" -> ascii_trimStart (a ++ b)%string = (a ++ b)%string.
Proof.
  destruct a as [|c a]; [done|]. simpl.
  destruct (ascii_space c); [|done].
  intros H _. exfalso.
  assert (Hlen : String.length (ascii_trimStart (a ++ " "))
                 <= String.length (a ++ " ")%string).
  { clear. induction (a ++ " ")%string as [|x s IH]; simpl; [lia|].
    destruct (ascii_space x); simpl; lia. }
  rewrite H in Hlen. simpl in Hlen. lia.
Qed.

(** [trim] within ASCII on a capitalised part, alone and before
    another. *)
Lemma trim_one_name (a : string) :
  a <> "" -> every (fun c => ascii_space c = false) a ->
  ascii_trimStart (a ++ " ")%string = (a ++ " ")%string ->
  ascii_trim (a ++ " ")%string = a.
Proof.
  intros Hne Hns Hstart. unfold ascii_trim.
  rewrite Hstart, trimEnd_app_space. by apply trimEnd_nospace.
Qed.

Lemma trim_two_names (a b : string) :
  a <> "" -> b <> "" -> every (fun c => ascii_space c = false) b ->
  ascii_trimStart (a ++ " ")%string = (a ++ " ")%string ->
  ascii_trim (a ++ " " ++ b)%string = (a ++ " " ++ b)%string.
Proof.
  intros Ha Hb Hns Hstart. unfold ascii_trim.
  rewrite (trimStart_app _ _ Hstart Ha).
  rewrite <- (append_assoc _ " " _).
  by apply trimEnd_app_nospace.
Qed.

Section DisplayName.

Variables toUpperCase trim : string -> string.

(** X10.  [getSessionUser] returns null exactly for a null session and
    for a session whose user has no e-mail address, absent or empty;
    otherwise it returns the id and the address of the session's user and
    a display name that is never empty; whatever [toUpperCase] and [trim]
    make of the text. *)
Theorem getSessionUser_shape (session : option Session) :
  (getSessionUser toUpperCase trim session = None
   <-> session = None
       \/ exists s, session = Some s
                    /\ (auth_email (session_user s) = None
                        \/ auth_email (session_user s) = Some ""))
  /\ (forall r, getSessionUser toUpperCase trim session = Some r ->
        exists s, session = Some s
                  /\ su_id r = uid (session_user s)
                  /\ auth_email (session_user s) = Some (su_email r)
                  /\ su_fullName r <> "").
Proof.
  unfold getSessionUser.
  destruct session as [s|]; [|split; [split; auto | discriminate]].
  destruct (auth_email (session_user s)) as [email|] eqn:Hmail.
  - destruct (String.eqb_spec email "") as [->|Hne].
    + split; [split; eauto | discriminate].
    + split.
      * split; [discriminate|].
        intros [H | (s' & [= <-] & [H | H])]; congruence.
      * intros r [= <-]. exists s. cbn. repeat split; auto.
        unfold or_else.
        match goal with
        | |- context [String.eqb ?t ""] => destruct (String.eqb_spec t "")
        end; congruence.
  - split; [split; eauto | discriminate].
Qed.

Hypothesis engine : ascii_methods toUpperCase trim.

Lemma capitalised_engine (p : string) :
  plain p ->
  capitalised toUpperCase (Some p) = capitalised ascii_toUpperCase (Some p).
Proof.
  intros Hp. unfold capitalised. rewrite (proj1 engine); [reflexivity|].
  destruct p as [|c p]; [exact I|]. destruct Hp as [(_ & _ & _ & Ha) _].
  split; [exact Ha | exact I].
Qed.

Lemma space_ascii : ascii_text " ".
Proof. split; [reflexivity | exact I]. Qed.

(** X11.  On an engine whose [toUpperCase] and [trim] do on ASCII what
    the language says, for an address [first.last@domain] whose parts
    [first] and [last] are ASCII with no dot, no at sign and no white
    space, [first] not empty, the display name is the two parts, each
    with its first letter in upper case, with one space between them, and
    the first part alone when [last] is empty; for [first@domain] it is
    the first part alone.  The domain is any text. *)
Theorem getSessionUser_names (i token first last domain : string) :
  plain first -> first <> "" -> plain last ->
  let session email :=
    Some {| session_user := {| uid := i; auth_email := Some email |};
            access_token := token |} in
  let name part := (ascii_toUpperCase (charAt0 part) ++ slice1 part)%string in
  option_map su_fullName
    (getSessionUser toUpperCase trim
       (session (first ++ "." ++ last ++ "@" ++ domain)%string))
  = Some (if String.eqb last "" then name first
          else (name first ++ " " ++ name last)%string)
  /\ option_map su_fullName
       (getSessionUser toUpperCase trim (session (first ++ "@" ++ domain)%string))
     = Some (name first).
Proof.
  intros Hfirst Hne Hlast session name.
  assert (Hat : forall s, plain s -> every (fun c => c <> "@"%char) s).
  { intros s. apply every_impl. tauto. }
  assert (Hdot : forall s, plain s -> every (fun c => c <> "."%char) s).
  { intros s. apply every_impl. tauto. }
  assert (Hname : forall part, capitalised ascii_toUpperCase (Some part) = name part).
  { intros part. unfold capitalised. apply or_else_empty. }
  destruct (capitalised_plain first Hfirst Hne) as (Hcne & Hcns & Hcstart & Hcascii).
  rewrite Hname in Hcne, Hcns, Hcstart, Hcascii.
  assert (Hnonempty : forall rest, (first ++ rest)%string <> "").
  { intros rest. destruct first; [done | discriminate]. }
  unfold session, getSessionUser; cbn [auth_email session_user uid option_map].
  split.
  - destruct (String.eqb_spec (first ++ "." ++ last ++ "@" ++ domain) "") as [E|_];
      [by apply Hnonempty in E|].
    cbn [option_map su_fullName]. f_equal.
    replace (first ++ "." ++ last ++ "@" ++ domain)%string
      with ((first ++ "." ++ last) ++ String "@" domain)%string
      by (rewrite !append_assoc; reflexivity).
    rewrite split_on_app.
    2:{ apply every_app; [by apply Hat|]. split; [discriminate | by apply Hat]. }
    cbn [hd]. change (first ++ "." ++ last)%string with (first ++ String "." last)%string.
    rewrite split_on_app by (by apply Hdot).
    rewrite (split_on_every _ last) by (by apply Hdot).
    cbn [lookup list_lookup].
    rewrite (capitalised_engine first Hfirst), (capitalised_engine last Hlast), !Hname.
    destruct (String.eqb_spec last "") as [->|Hlne].
    + change (name "") with "". change (" " ++ "")%string with " ".
      rewrite (proj2 engine) by (apply every_app; [exact Hcascii | exact space_ascii]).
      rewrite trim_one_name by done. by apply or_else_nonempty.
    + destruct (capitalised_plain last Hlast Hlne) as (Hlc & Hlns & _ & Hlascii).
      rewrite Hname in Hlc, Hlns, Hlascii.
      rewrite (proj2 engine)
        by (apply every_app; [exact Hcascii|];
            apply (every_app _ " "); [exact space_ascii | exact Hlascii]).
      rewrite trim_two_names by done.
      apply or_else_nonempty. destruct (name first); [done | discriminate].
  - destruct (String.eqb_spec (first ++ "@" ++ domain) "") as [E|_];
      [by apply Hnonempty in E|].
    cbn [option_map su_fullName]. f_equal.
    change (first ++ "@" ++ domain)%string with (first ++ String "@" domain)%string.
    rewrite split_on_app by (by apply Hat).
    cbn [hd]. rewrite (split_on_every _ first) by (by apply Hdot).
    cbn [lookup list_lookup].
    rewrite (capitalised_engine first Hfirst), !Hname.
    change (capitalised toUpperCase None) with "".
    change (" " ++ "")%string with " ".
    rewrite (proj2 engine) by (apply every_app; [exact Hcascii | exact space_ascii]).
    rewrite trim_one_name by done. by apply or_else_nonempty.
Qed.

End DisplayName.

(** X11 at the address [john.doe@x.com], on an engine that leaves the
    text outside ASCII alone. *)
Lemma getSessionUser_names_witness :
  option_map su_fullName
    (getSessionUser ascii_toUpperCase ascii_trim
       (Some {| session_user := {| uid := "u-1"; auth_email := Some "john.doe@x.com" |};
                access_token := "t" |}))
  = Some "John Doe".
Proof.
  refine (proj1 (getSessionUser_names ascii_toUpperCase ascii_trim _
                   "u-1" "t" "john" "doe" "x.com" _ _ _)).
  - split; intros s _; reflexivity.
  - cbv [plain every]. repeat split; (discriminate || reflexivity).
  - discriminate.
  - cbv [plain every]. repeat split; (discriminate || reflexivity).
Defined.

(** ** The redirect hook, the guard and the dashboards together *)

Section Navigation.

Variable st : AuthState.

(** X12.  Both redirect hooks do nothing while [isLoading] is true.  The
    one of [hooks/useAuthRedirect.ts] redirects exactly when a profile is
    loaded, the one of [hooks/useAuth.ts] exactly when there is a session.
    Either replaces the history entry and goes to the admin dashboard for
    an admin and to the user dashboard otherwise; both are routes of the
    application. *)
Theorem redirect_hooks_wait_and_choose :
  ((exists l p r, Pages.useAuthRedirect (useAuth st) = Pages.Redirect l p r)
   <-> isLoading st = false /\ user st <> None)
  /\ ((exists l p r, Pages.useAuthRedirect_bySession (useAuth st) = Pages.Redirect l p r)
      <-> isLoading st = false /\ session st <> None)
  /\ (forall hook, hook = Pages.useAuthRedirect \/ hook = Pages.useAuthRedirect_bySession ->
      forall l p r, hook (useAuth st) = Pages.Redirect l p r ->
        r = true
        /\ p = (if isAdmin st then "/admin-dashboard" else "/user-dashboard")
        /\ Pages.routes p <> None).
Proof.
  unfold Pages.useAuthRedirect, Pages.useAuthRedirect_bySession, useAuth,
    isAuthenticated, present; cbn.
  destruct (isLoading st), (user st) as [u|], (session st) as [s|], (isAdmin st);
    (split; [split; [intros (l & p & r & H); try discriminate; split; congruence
                    | intros [H1 H2]; try congruence; eauto]|]);
    (split; [split; [intros (l & p & r & H); try discriminate; split; congruence
                    | intros [H1 H2]; try congruence; eauto]|]);
    intros hook [-> | ->] l p r H; try discriminate;
    injection H as <- <- <-; repeat split; discriminate.
Qed.

(** X13.  Where the session-based hook redirects, the guard (part_006 and
    part_005) renders the page of the target route; the page then fetches
    its data when a profile is loaded, and leaves for the home page when
    none is. *)
Theorem session_redirect_passes_guard :
  match Pages.useAuthRedirect_bySession (useAuth st) with
  | Pages.Idle => isLoading st = true \/ session st = None
  | Pages.Redirect _ path _ =>
      let landing :=
        Some (Children,
              Some (if present (user st) then Pages.Fetch else Pages.Leave "/")) in
      Pages.visit V6.ProtectedRoute path (useAuth st) = landing
      /\ Pages.visit V5.ProtectedRoute path (useAuth st) = landing
  end.
Proof.
  unfold Pages.useAuthRedirect_bySession, Pages.visit, useAuth,
    isAuthenticated, isAdmin, present, mounted_at, V6.ProtectedRoute,
    V5.ProtectedRoute, test2, test, log, render, Pages.page_effect,
    Pages.AdminDashboard_effect, Pages.UserDashboard_effect; cbn.
  destruct (isLoading st); [auto|].
  destruct (session st) as [s|]; [|auto].
  destruct (user st) as [u|]; cbn.
  - destruct (String.eqb (role u) "admin") eqn:E; cbn; rewrite ?E; cbn; auto.
  - auto.
Qed.

End Navigation.

(** X14.  With a session, no profile and [isLoading] false, the
    session-based hook sends the visitor to [/user-dashboard], the guard
    (part_006 and part_005) renders the dashboard, and the dashboard sends
    the visitor back to the home page; the guard of part_004 keeps its
    placeholder instead, and the profile-based hook does not redirect in
    this state. *)
Theorem session_without_profile_cycles (s : Session) :
  let ctx := useAuth {| user := None; session := Some s; isLoading := false |} in
  Pages.useAuthRedirect_bySession ctx
  = Pages.Redirect "[useAuthRedirect] Redirecting user to user dashboard"
      "/user-dashboard" true
  /\ Pages.visit V6.ProtectedRoute "/user-dashboard" ctx
     = Some (Children, Some (Pages.Leave "/"))
  /\ Pages.visit V5.ProtectedRoute "/user-dashboard" ctx
     = Some (Children, Some (Pages.Leave "/"))
  /\ Pages.visit V4.ProtectedRoute "/user-dashboard" ctx
     = Some (Placeholder (Some "Setting up your account..."), None)
  /\ Pages.useAuthRedirect ctx = Pages.Idle.
Proof.
  cbv zeta. repeat split; reflexivity.
Qed.

Lemma reachable_exec (inps : list Input) :
  forall sys sys', reachable sys -> exec inps sys = Some sys' -> reachable sys'.
Proof.
  induction inps as [|inp inps IH]; intros sys sys' Hreach; cbn [exec].
  - by intros [= <-].
  - destruct (step inp sys) as [[sys1 status]|] eqn:Hstep; [|discriminate].
    apply IH. by eapply reachable_step.
Qed.

(** X15.  A profile without a session, with [isLoading] false, is a state
    the provider reaches with no call left in flight (a sign-out overtakes
    the fetch of a sign-in).  In it the profile-based hook redirects to a
    dashboard, and every copy of the guard sends that route back to the
    home page; the session-based hook does not redirect. *)
Theorem stale_profile_cycles (u : User) (s : Session) :
  let stale := {| user := Some u; session := None; isLoading := false |} in
  let ctx := useAuth stale in
  let target := if isAdmin stale then "/admin-dashboard" else "/user-dashboard" in
  (exists sys, reachable sys /\ quiescent sys /\ auth (world sys) = stale)
  /\ (exists l, Pages.useAuthRedirect ctx = Pages.Redirect l target true)
  /\ Pages.visit V6.ProtectedRoute target ctx = Some (Navigate "/" true, None)
  /\ Pages.visit V5.ProtectedRoute target ctx = Some (Navigate "/" true, None)
  /\ Pages.visit V4.ProtectedRoute target ctx = Some (Navigate "/" true, None)
  /\ Pages.useAuthRedirect_bySession ctx = Pages.Idle.
Proof.
  cbv zeta. split.
  - destruct (exec [Resume 0 (GotSession (Fulfilled None));
                    Emit SIGNED_IN (Some s); Emit SIGNED_OUT None;
                    Resume 1 (GotProfile (row u)); Resume 1 Tick] mounted)
      as [sys|] eqn:Hexec; [|discriminate].
    exists sys. split; [exact (reachable_exec _ _ _ reachable_mounted Hexec)|].
    injection Hexec as <-. split; [|reflexivity].
    unfold quiescent; cbn. repeat constructor.
  - unfold Pages.useAuthRedirect, Pages.visit, useAuth, isAuthenticated, isAdmin,
      present; cbn.
    destruct (String.eqb (role u) "admin"); cbn; repeat split; eauto.
Qed.

(** X16.  With a session, where the profile-based hook redirects, every
    copy of the guard renders the target page and the page fetches its
    data: nothing sends the visitor back. *)
Theorem profile_redirect_passes_guard (u : option User) (s : Session)
    (loading : bool) :
  let ctx := useAuth {| user := u; session := Some s; isLoading := loading |} in
  match Pages.useAuthRedirect ctx with
  | Pages.Idle => loading = true \/ u = None
  | Pages.Redirect _ path _ =>
      Pages.visit V6.ProtectedRoute path ctx = Some (Children, Some Pages.Fetch)
      /\ Pages.visit V5.ProtectedRoute path ctx = Some (Children, Some Pages.Fetch)
      /\ Pages.visit V4.ProtectedRoute path ctx = Some (Children, Some Pages.Fetch)
  end.
Proof.
  cbv zeta. unfold Pages.useAuthRedirect, Pages.visit, useAuth,
    isAuthenticated, isAdmin, present, mounted_at, V6.ProtectedRoute,
    V5.ProtectedRoute, V4.ProtectedRoute, test2, test, log, render,
    Pages.page_effect, Pages.AdminDashboard_effect, Pages.UserDashboard_effect; cbn.
  destruct loading; [auto|]. destruct u as [u|]; [|auto]. cbn.
  destruct (String.eqb (role u) "admin") eqn:E; cbn; rewrite ?E; cbn; auto.
Qed.

(** X17.  [handleSubmit] inserts a testimonial only for a loaded profile
    that may write testimonials and a form whose quote, trip, role and
    location are filled in; the row carries the id of the profile and is
    not published.  In every other case it sends nothing and shows a
    message, and one of these conditions fails. *)
Theorem handleSubmit_checks (user : option User) (form : Pages.FormData) :
  match Pages.handleSubmit user form with
  | Pages.InsertTestimonial row =>
      exists u, user = Some u
        /\ canWriteTestimonial u = true
        /\ Pages.t_userId row = id u
        /\ Pages.t_isPublished row = false
        /\ Pages.t_quote row <> "" /\ Pages.t_trip row <> ""
        /\ Pages.t_role row <> "" /\ Pages.t_location row <> ""
  | Pages.Refused toast =>
      toast <> ""
      /\ (user = None
          \/ (exists u, user = Some u /\ canWriteTestimonial u = false)
          \/ Pages.form_quote form = "" \/ Pages.form_trip form = ""
          \/ Pages.form_role form = "" \/ Pages.form_location form = "")
  end.
Proof.
  unfold Pages.handleSubmit, Pages.blank_field.
  destruct user as [u|]; [|split; [discriminate | auto]].
  destruct (canWriteTestimonial u) eqn:Hw; cbn; [|split; [discriminate | eauto]].
  destruct (String.eqb_spec (Pages.form_quote form) ""); cbn;
    [split; [discriminate | auto]|].
  destruct (String.eqb_spec (Pages.form_trip form) ""); cbn;
    [split; [discriminate | auto 6]|].
  destruct (String.eqb_spec (Pages.form_role form) ""); cbn;
    [split; [discriminate | auto 7]|].
  destruct (String.eqb_spec (Pages.form_location form) ""); cbn;
    [split; [discriminate | auto 8]|].
  exists u. repeat split; auto.
Qed.

(** ** Roles and approval *)

Import Roles.

(** *** The order of strings that [>=] goes by *)

Lemma string_compare_refl (s : string) : String.compare s s = Eq.
Proof.
  induction s as [|c s IH]; [reflexivity|]. cbn.
  unfold Ascii.compare. by rewrite N.compare_refl.
Qed.

Lemma string_geq_refl (s : string) : String.ltb s s = false.
Proof. unfold String.ltb. by rewrite string_compare_refl. Qed.

Lemma string_geq_total (a b : string) :
  String.ltb a b = false \/ String.ltb b a = false.
Proof.
  unfold String.ltb. rewrite (String.compare_antisym a b).
  destruct (String.compare b a); cbn; auto.
Qed.

Lemma string_geq_trans (a : string) :
  forall b c, String.ltb a b = false -> String.ltb b c = false ->
              String.ltb a c = false.
Proof.
  unfold String.ltb.
  induction a as [|x a IH]; intros [|y b] [|z c]; cbn; try done.
  unfold Ascii.compare.
  destruct (N.compare_spec (Ascii.N_of_ascii x) (Ascii.N_of_ascii y)) as [Hxy|Hxy|Hxy];
    destruct (N.compare_spec (Ascii.N_of_ascii y) (Ascii.N_of_ascii z)) as [Hyz|Hyz|Hyz];
    destruct (N.compare_spec (Ascii.N_of_ascii x) (Ascii.N_of_ascii z)) as [Hxz|Hxz|Hxz];
    try done; try lia.
  apply IH.
Qed.

Lemma known_not_inherited (r : string) : r ∈ validRoles -> inherited r = false.
Proof.
  unfold validRoles. rewrite !elem_of_cons, elem_of_nil.
  intros [->|[->|[->|[->|[]]]]]; reflexivity.
Qed.

Section RoleProperties.

Variable native : string -> string.

(** The level of a name: one of the four ranks, [-1], or the text of an
    inherited property. *)
Lemma level_cases (r : string) :
  (r = USER /\ level native r = Num 0)
  \/ (r = CONTENT_CREATOR /\ level native r = Num 1)
  \/ (r = MODERATOR /\ level native r = Num 2)
  \/ (r = ADMIN /\ level native r = Num 3)
  \/ ((r ∉ validRoles) /\ inherited r = true
      /\ level native r = Text (primitive_of native r))
  \/ ((r ∉ validRoles) /\ inherited r = false /\ level native r = Num (-1)).
Proof.
  unfold level.
  destruct (String.eqb_spec r USER) as [->|H1]; [auto|].
  destruct (String.eqb_spec r CONTENT_CREATOR) as [->|H2]; [auto|].
  destruct (String.eqb_spec r MODERATOR) as [->|H3]; [auto 6|].
  destruct (String.eqb_spec r ADMIN) as [->|H4]; [auto 6|].
  assert (Hout : r ∉ validRoles).
  { unfold validRoles. rewrite !not_elem_of_cons. repeat split; auto.
    apply not_elem_of_nil. }
  destruct (inherited r); auto 10.
Qed.

(** A name has a number for its level exactly when it is not inherited. *)
Lemma level_kind (r : string) :
  (inherited r = false /\ exists n, level native r = Num n)
  \/ (inherited r = true /\ level native r = Text (primitive_of native r)).
Proof.
  destruct (level_cases r)
    as [[-> H]|[[-> H]|[[-> H]|[[-> H]|[(? & ? & H)|(? & ? & H)]]]]]; eauto.
Qed.

Lemma hasRole_trans (a b c : string) :
  hasRole native a b = true -> hasRole native b c = true ->
  hasRole native a c = true.
Proof.
  unfold hasRole.
  destruct (level native a) as [x|s], (level native b) as [y|t],
    (level native c) as [z|u]; cbn; try discriminate.
  - rewrite !Z.leb_le. lia.
  - rewrite !negb_true_iff. apply string_geq_trans.
Qed.

(** X18.  [hasRole] is transitive and reflexive on all names, and two
    names compare one way or the other when both or neither of them are
    properties of [Object.prototype]; on the four roles it is
    antisymmetric, with [admin] above and [user] below every role. *)
Theorem hasRole_is_an_order :
  (forall a b c, hasRole native a b = true -> hasRole native b c = true ->
                 hasRole native a c = true)
  /\ (forall a, hasRole native a a = true)
  /\ (forall a b, inherited a = inherited b ->
        hasRole native a b = true \/ hasRole native b a = true)
  /\ (forall a b, a ∈ validRoles -> b ∈ validRoles ->
        hasRole native a b = true -> hasRole native b a = true -> a = b)
  /\ (forall r, r ∈ validRoles ->
        hasRole native ADMIN r = true /\ hasRole native r USER = true).
Proof.
  split; [exact hasRole_trans|]. split; [|split; [|split]].
  - intros a. unfold hasRole.
    destruct (level native a) as [x|s]; cbn;
      [apply Z.leb_refl | by rewrite string_geq_refl].
  - intros a b Hab. unfold hasRole.
    destruct (level_kind a) as [(Ha & x & ->)|(Ha & ->)],
      (level_kind b) as [(Hb & y & ->)|(Hb & ->)]; try congruence; cbn.
    + rewrite !Z.leb_le. lia.
    + rewrite !negb_true_iff. apply string_geq_total.
  - intros a b Ha Hb. unfold validRoles in *.
    rewrite !elem_of_cons, elem_of_nil in Ha, Hb.
    destruct Ha as [->|[->|[->|[->|[]]]]], Hb as [->|[->|[->|[->|[]]]]];
      cbn; congruence.
  - intros r H. unfold validRoles in H. rewrite !elem_of_cons, elem_of_nil in H.
    destruct H as [->|[->|[->|[->|[]]]]]; split; reflexivity.
Qed.

(** X19.  A name outside the four roles: as the role of the user it
    reaches none of the four.  When it is no property of
    [Object.prototype] its level is [-1], and as the required role it is
    reached by every role that is no such property either, known or not.
    When it is such a property, say [constructor], it reaches itself, as
    two equal strings compare; it neither reaches nor is reached by any
    name that is no such property; and against another such property it
    goes by the order of the two source texts. *)
Theorem hasRole_outside_the_table (r : string) :
  r ∉ validRoles ->
  (forall k, k ∈ validRoles -> hasRole native r k = false)
  /\ (inherited r = false ->
      forall x, inherited x = false -> hasRole native x r = true)
  /\ (inherited r = true ->
      hasRole native r r = true
      /\ (forall x, inherited x = false ->
            hasRole native x r = false /\ hasRole native r x = false)
      /\ (forall x, inherited x = true ->
            hasRole native x r
            = negb (String.ltb (primitive_of native x) (primitive_of native r)))).
Proof.
  intros Hout. unfold hasRole.
  destruct (level_cases r)
    as [[-> H]|[[-> H]|[[-> H]|[[-> H]|[(_ & Hin & H)|(_ & Hin & H)]]]]];
    try (exfalso; apply Hout; unfold validRoles; rewrite !elem_of_cons; by auto 6).
  - rewrite H. split; [|split; [congruence|]].
    + intros k Hk. unfold validRoles in Hk. rewrite !elem_of_cons, elem_of_nil in Hk.
      destruct Hk as [->|[->|[->|[->|[]]]]]; reflexivity.
    + intros _. split; [cbn; by rewrite string_geq_refl|]. split.
      * intros x Hx. destruct (level_kind x) as [(_ & n & ->)|(Hx' & _)];
          [split; reflexivity | congruence].
      * intros x Hx. destruct (level_kind x) as [(Hx' & _)|(_ & ->)];
          [congruence | reflexivity].
  - rewrite H. split; [|split; [|congruence]].
    + intros k Hk. unfold validRoles in Hk. rewrite !elem_of_cons, elem_of_nil in Hk.
      destruct Hk as [->|[->|[->|[->|[]]]]]; reflexivity.
    + intros _ x Hx.
      destruct (level_cases x)
        as [[-> H']|[[-> H']|[[-> H']|[[-> H']|[(? & ? & H')|(? & ? & H')]]]]];
        try congruence; rewrite ?H'; reflexivity.
Qed.

Lemma admin_is_creator (r : string) :
  hasRole native r ADMIN = true -> hasRole native r CONTENT_CREATOR = true.
Proof.
  intros H. apply (hasRole_trans r ADMIN CONTENT_CREATOR H).
  reflexivity.
Qed.

(** X20.  [canCreateContent] is approval together with the rank of a
    content creator: its separate test for [admin] adds nothing.
    [canManageContent] of [authHelpers.ts] is the same test for an active
    account, and without a document nothing is allowed. *)
Theorem canCreateContent_is_creator_check (d : UserDoc) (active : bool) :
  canCreateContent native (Some d)
  = isUserApproved (doc_approvalStatus d) && hasRole native (doc_role d) CONTENT_CREATOR
  /\ canManageContent native (Some {| perm_role := doc_role d;
                               perm_approvalStatus := doc_approvalStatus d;
                               perm_isActive := active |})
     = canCreateContent native (Some d) && active
  /\ canCreateContent native None = false.
Proof.
  unfold canCreateContent, canManageContent; cbn.
  pose proof (admin_is_creator (doc_role d)) as Hadmin.
  destruct (isUserApproved (doc_approvalStatus d)),
    (hasRole native (doc_role d) CONTENT_CREATOR), (hasRole native (doc_role d) ADMIN), active;
    cbn; repeat split; try reflexivity; discriminate (Hadmin eq_refl).
Qed.

(** X21.  [hasPermission] is approval, an active account and the rank
    together; for the content creator it is [canManageContent].  A
    restricted account, suspended or rejected, has no permission and no
    access to protected features.  [isFullAdmin] and [canModerate] go by
    the rank alone. *)
Theorem hasPermission_requires_standing (p : UserPermissions) (requiredRole : string) :
  hasPermission native (Some p) requiredRole
  = isUserApproved (perm_approvalStatus p) && perm_isActive p
    && hasRole native (perm_role p) requiredRole
  /\ hasPermission native (Some p) CONTENT_CREATOR = canManageContent native (Some p)
  /\ hasPermission native None requiredRole = false
  /\ (isAccountRestricted (Some p) = true ->
      hasPermission native (Some p) requiredRole = false
      /\ canAccessProtectedFeatures (Some p) = false)
  /\ isFullAdmin native (Some p) = hasRole native (perm_role p) ADMIN
  /\ canModerate native (Some p) = hasRole native (perm_role p) MODERATOR.
Proof.
  unfold hasPermission, canManageContent, canAccessProtectedFeatures,
    isAccountRestricted, isFullAdmin, canModerate, isUserApproved.
  destruct (String.eqb_spec (perm_approvalStatus p) REJECTED) as [E|_];
    [rewrite E|]; cbn;
  destruct (perm_isActive p); cbn;
  repeat match goal with
         | |- context [String.eqb ?a ?b] => destruct (String.eqb a b)
         end; cbn;
  repeat split; try reflexivity; try discriminate; auto.
Qed.

(** X22.  [getRestrictionMessage] names the cause: suspension before
    rejection, and one of these two texts exactly for a restricted
    account; an active account pending approval gets the pending text and
    is neither restricted nor admitted to protected features; an account
    that is admitted gets the generic text. *)
Theorem getRestrictionMessage_names_the_cause (p : UserPermissions) :
  let msg := getRestrictionMessage (Some p) in
  (perm_isActive p = false
   -> msg = "Your account has been suspended. Please contact support.")
  /\ (perm_isActive p = true -> perm_approvalStatus p = REJECTED
      -> msg = "Your account has been rejected. Please contact support for more information.")
  /\ (isAccountRestricted (Some p) = true
      <-> msg = "Your account has been suspended. Please contact support."
          \/ msg = "Your account has been rejected. Please contact support for more information.")
  /\ (needsOnboarding (Some p) = true -> perm_isActive p = true
      -> msg = "Your account is pending approval. You'll be notified once reviewed."
         /\ canAccessProtectedFeatures (Some p) = false
         /\ isAccountRestricted (Some p) = false)
  /\ (canAccessProtectedFeatures (Some p) = true
      -> msg = "Your account has access restrictions").
Proof.
  cbv zeta. unfold getRestrictionMessage, isAccountRestricted, needsOnboarding,
    canAccessProtectedFeatures, isUserApproved.
  destruct (perm_isActive p); cbn.
  - destruct (String.eqb_spec (perm_approvalStatus p) REJECTED) as [E|Hr].
    + rewrite E; cbn. repeat split; auto; try discriminate.
    + destruct (String.eqb_spec (perm_approvalStatus p) PENDING) as [E|Hp].
      * rewrite E; cbn. repeat split; auto; try discriminate.
        intros [H|H]; discriminate.
      * cbn. repeat split; auto; try discriminate; try congruence.
        intros [H|H]; discriminate.
  - repeat split; auto; try discriminate.
    + intros _. apply orb_true_r.
    + rewrite andb_false_r. discriminate.
Qed.

(** X23.  On the four roles [canModifyUser] holds exactly when the
    initiator is an admin, or a moderator while the target is a user or a
    content creator.  Neither approval nor activity is looked at, and an
    admin may modify an admin. *)
Theorem canModifyUser_on_known_roles (initiator target : UserPermissions) :
  perm_role initiator ∈ validRoles -> perm_role target ∈ validRoles ->
  (canModifyUser native initiator target = true
   <-> perm_role initiator = ADMIN
       \/ (perm_role initiator = MODERATOR
           /\ (perm_role target = USER \/ perm_role target = CONTENT_CREATOR))).
Proof.
  unfold canModifyUser, validRoles. rewrite !elem_of_cons, !elem_of_nil.
  intros [->|[->|[->|[->|[]]]]] [->|[->|[->|[->|[]]]]]; cbn;
    (split; [intros H; try discriminate; auto
            | intros [H|[H [H'|H']]]; try discriminate; reflexivity]).
Qed.

(** X24.  The message [handleAuthError] builds is never empty; an error
    without a code gets the generic text whatever its own message says; an
    error whose code does not start with [auth/] gets its own message, and
    the generic text when it has none. *)
Theorem handleAuthError_message (error : FirebaseError) :
  handleAuthError error <> ""
  /\ (fb_code error = "" ->
      handleAuthError error = "An authentication error occurred")
  /\ (String.prefix "auth/" (fb_code error) = false -> fb_code error <> "" ->
      handleAuthError error
      = or_else (fb_message error) "An authentication error occurred").
Proof.
  unfold handleAuthError.
  repeat match goal with
         | |- context [String.eqb (fb_code error) ?k] =>
             destruct (String.eqb_spec (fb_code error) k) as [->|?]
         end;
    repeat split; try discriminate; try congruence.
  all: unfold or_else;
    destruct (String.eqb_spec (fb_message error) ""); congruence.
Qed.

(** ** The Firebase hook *)

(** X25.  The listener of the Firebase hook always ends with [loading]
    false, and a failed update of the last login changes nothing.  When
    the fetch of the document fails, the user and the document of before
    stay and the error is set; otherwise the error is cleared, a signed-in
    user gets the document and a role and approval status that are never
    empty, and no user clears both cells. *)
Theorem hook_listener_settles (getDoc : Settled (option UserDoc))
    (updateDoc : Settled unit) (cu : option FirebaseHook.FirebaseUser)
    (st : FirebaseHook.HookState) :
  let st' := FirebaseHook.onAuthStateChanged getDoc updateDoc cu st in
  FirebaseHook.h_loading st' = false
  /\ st' = FirebaseHook.onAuthStateChanged getDoc (Fulfilled tt) cu st
  /\ match cu, getDoc with
     | Some _, Rejected err =>
         FirebaseHook.h_user st' = FirebaseHook.h_user st
         /\ FirebaseHook.h_userDoc st' = FirebaseHook.h_userDoc st
         /\ FirebaseHook.h_error st'
            = Some (FirebaseHook.message_or "Auth error occurred" err)
     | Some u, Fulfilled d =>
         FirebaseHook.h_error st' = None
         /\ FirebaseHook.h_userDoc st' = d
         /\ (exists merged, FirebaseHook.h_user st' = Some merged
               /\ FirebaseHook.uw_base merged = u
               /\ FirebaseHook.uw_role merged <> ""
               /\ FirebaseHook.uw_approvalStatus merged <> "")
     | None, _ =>
         FirebaseHook.h_error st' = None
         /\ FirebaseHook.h_user st' = None /\ FirebaseHook.h_userDoc st' = None
     end.
Proof.
  cbv zeta. unfold FirebaseHook.onAuthStateChanged, FirebaseHook.getUserDocument,
    FirebaseHook.updateLastLogin.
  destruct cu as [u|]; [|repeat split; reflexivity].
  destruct getDoc as [d|err]; [|destruct updateDoc; repeat split; reflexivity].
  destruct updateDoc; cbn; (split; [reflexivity|]); (split; [reflexivity|]);
    (split; [reflexivity|]); (split; [reflexivity|]);
    eexists; (split; [reflexivity|]); cbn; (split; [reflexivity|]);
    split; unfold or_else;
    match goal with
    | |- context [String.eqb ?t ""] => destruct (String.eqb_spec t "")
    end; (discriminate || congruence).
Qed.

(** X26.  A signed-in Firebase user without a document counts as
    authenticated, with the role [user] and pending approval: not an
    admin, not approved, not allowed to create content, and of the four
    roles [checkRole] holds for [user] alone. *)
Theorem hook_user_without_document (updateDoc : Settled unit)
    (cu : FirebaseHook.FirebaseUser) (st : FirebaseHook.HookState) :
  let st' := FirebaseHook.onAuthStateChanged (Fulfilled None) updateDoc (Some cu) st in
  FirebaseHook.isAuthenticated st' = true
  /\ FirebaseHook.isAdmin native st' = false
  /\ FirebaseHook.isApproved st' = false
  /\ FirebaseHook.canCreateContent native st' = false
  /\ FirebaseHook.checkRole native st' USER = true
  /\ (forall role, role ∈ validRoles -> role <> USER ->
        FirebaseHook.checkRole native st' role = false).
Proof.
  cbv zeta. destruct updateDoc; cbn; repeat split; try reflexivity.
  all: intros role Hin Hne; unfold validRoles in Hin;
    rewrite !elem_of_cons, elem_of_nil in Hin;
    destruct Hin as [->|[->|[->|[->|[]]]]]; try reflexivity; congruence.
Qed.

End RoleProperties.

(** X19 at the names [guest] and [constructor], on V8. *)
Lemma hasRole_outside_the_table_witness :
  hasRole v8_native "guest" ADMIN = false
  /\ hasRole v8_native ADMIN "guest" = true
  /\ hasRole v8_native "visitor" "guest" = true
  /\ hasRole v8_native "constructor" "constructor" = true
  /\ hasRole v8_native ADMIN "constructor" = false
  /\ hasRole v8_native "constructor" USER = false.
Proof.
  assert (Hguest : "guest" ∉ validRoles).
  { unfold validRoles. rewrite !not_elem_of_cons. repeat split; try discriminate.
    apply not_elem_of_nil. }
  assert (Hctor : "constructor" ∉ validRoles).
  { unfold validRoles. rewrite !not_elem_of_cons. repeat split; try discriminate.
    apply not_elem_of_nil. }
  destruct (hasRole_outside_the_table v8_native "guest" Hguest) as (Hk & Hany & _).
  destruct (hasRole_outside_the_table v8_native "constructor" Hctor)
    as (_ & _ & Hinh).
  destruct (Hinh eq_refl) as (Hself & Hother & _).
  split; [apply Hk; unfold validRoles; rewrite !elem_of_cons; by auto 6|].
  split; [apply Hany; reflexivity|]. split; [apply Hany; reflexivity|].
  split; [exact Hself|].
  split; [apply (Hother ADMIN); reflexivity | apply (Hother USER); reflexivity].
Defined.

(** X23 at a suspended, rejected admin and another admin. *)
Lemma canModifyUser_on_known_roles_witness :
  canModifyUser v8_native {| perm_role := ADMIN; perm_approvalStatus := REJECTED;
                   perm_isActive := false |}
                {| perm_role := ADMIN; perm_approvalStatus := APPROVED;
                   perm_isActive := true |} = true.
Proof.
  apply canModifyUser_on_known_roles;
    [ unfold validRoles; cbn; rewrite !elem_of_cons; by auto 6
    | unfold validRoles; cbn; rewrite !elem_of_cons; by auto 6
    | left; reflexivity ].
Defined.

(** ** The guard as a whole *)

(** X27.  The guard of part_006 renders the children exactly when
    [isLoading] is false, there is a session and, on an admin route,
    [isAdmin] holds; it redirects to the home page exactly when
    [isLoading] is false and there is no session or, on an admin route,
    [isAdmin] fails.  A route without a required role asks for the session
    only.  The guard of part_005 decides alike, and the last test of the
    guard, for a user route without a session, never fires. *)
Theorem guard_decision (requiredRole : option Role) (ctx : AuthContextType) :
  let shown := fst (mounted_at (V6.ProtectedRoute requiredRole ctx)) in
  let trace := snd (mounted_at (V6.ProtectedRoute requiredRole ctx)) in
  (shown = Children
   <-> ctx_isLoading ctx = false /\ ctx_isAuthenticated ctx = true
       /\ (requiredRole = Some admin -> ctx_isAdmin ctx = true))
  /\ (shown = Navigate "/" true
      <-> ctx_isLoading ctx = false
          /\ (ctx_isAuthenticated ctx = false
              \/ (requiredRole = Some admin /\ ctx_isAdmin ctx = false)))
  /\ (fst (mounted_at (V5.ProtectedRoute requiredRole ctx)) = Children
      <-> shown = Children)
  /\ (fst (mounted_at (V5.ProtectedRoute requiredRole ctx)) = Navigate "/" true
      <-> shown = Navigate "/" true)
  /\ ~ In (Logged "[ProtectedRoute] User route but not authenticated") trace.
Proof.
  cbv zeta. unfold mounted_at, V6.ProtectedRoute, V5.ProtectedRoute, test2, test,
    log, render.
  destruct (ctx_isLoading ctx), (ctx_isAuthenticated ctx), (ctx_isAdmin ctx),
    requiredRole as [[|]|]; cbn;
    repeat split; try discriminate; try congruence; auto;
    try (intros (? & ? & ?); discriminate);
    try (intros (? & [? | [? ?]]); discriminate);
    try (intros (_ & _ & H); discriminate (H eq_refl));
    try (intros [H|H]; repeat (destruct H as [H|H]; try discriminate); contradiction).
  all: intros H; repeat (destruct H as [H|H]; try discriminate); contradiction.
Qed.

(** X28.  The guard of part_004 renders what part_005 renders, except on
    a user route with a session, no profile and [isLoading] false, where
    it shows a placeholder. *)
Theorem guard_v4_differs_once (requiredRole : option Role) (ctx : AuthContextType) :
  fst (mounted_at (V4.ProtectedRoute requiredRole ctx))
  = (if negb (ctx_isLoading ctx) && ctx_isAuthenticated ctx
        && is_role requiredRole user_role && negb (present (ctx_user ctx))
     then Placeholder (Some "Setting up your account...")
     else fst (mounted_at (V5.ProtectedRoute requiredRole ctx))).
Proof.
  unfold mounted_at, V4.ProtectedRoute, V5.ProtectedRoute, test2, test, log, render,
    present.
  destruct (ctx_isLoading ctx), (ctx_isAuthenticated ctx), (ctx_isAdmin ctx),
    requiredRole as [[|]|], (ctx_user ctx); reflexivity.
Qed.

(** ** The session cell follows the last event *)

Import SessionCell.

Lemma keeps_bind {A B : Type} (p : Async A) (f : A -> Async B) :
  keeps_session p -> (forall r, keeps_session (f r)) -> keeps_session (bind p f).
Proof. intros Hp Hf; induction p; simpl in *; intuition auto. Qed.

Lemma keeps_try_catch {R : Type} (p : Async R) (h : Thrown -> Async R) :
  keeps_session p -> (forall e, keeps_session (h e)) -> keeps_session (try_catch p h).
Proof. intros Hp Hh; induction p; simpl in *; intuition auto. Qed.

Lemma keeps_await_async {R : Type} (p : Async R) :
  keeps_session p -> keeps_session (await_async p).
Proof. induction p; simpl; intuition auto. Qed.

Lemma keeps_finally {R : Type} (p : Async R) (f : Async unit) :
  keeps_session p -> keeps_session f -> keeps_session (finally p f).
Proof.
  intros Hp Hf; induction p; simpl in *; intuition auto;
    apply keeps_bind; simpl; auto.
Qed.

Lemma stateless_keeps {R : Type} (p : Async R) : stateless p -> keeps_session p.
Proof.
  induction p as [r | e | a k IH | call k IH | k IH]; simpl; auto.
  intros [(l & text & ->) Hk]. split; [discriminate | auto].
Qed.

Lemma keeps_catch_block (label stack_label : string) (error : Thrown) :
  keeps_session
    (read_message error (fun _ =>
       Console ERROR label ;;
       log_stack stack_label error (SetUser None ;; Return tt))).
Proof.
  unfold read_message, log_stack.
  destruct (message_of error), (instanceofError error); simpl;
    repeat split; auto; discriminate.
Qed.

Lemma keeps_fetchUserProfile userId : keeps_session (fetchUserProfile userId).
Proof.
  apply keeps_try_catch.
  - simpl. split; [discriminate|]. intros [r|e]; simpl; auto.
    destruct (single_error r); simpl.
    + split; [discriminate|]. repeat (case_match; simpl); repeat split; auto; discriminate.
    + destruct (single_data r); simpl; repeat split; auto; discriminate.
  - intros e. apply keeps_catch_block.
Qed.

(** After its first write the handler leaves the session cell alone. *)
Lemma handler_writes_session_once ev s :
  exists rest,
    onAuthStateChange ev s
    = (Console LOG "[Auth] Auth state changed:" ;; SetSession s ;; rest)
    /\ keeps_session rest.
Proof.
  unfold onAuthStateChange. cbn [try_catch finally]. eexists; split; [reflexivity|].
  apply keeps_finally; [|simpl; repeat split; auto; discriminate].
  apply keeps_try_catch.
  - destruct s as [s|]; cbn [keeps_session]; repeat split; try discriminate.
    apply keeps_await_async, keeps_fetchUserProfile.
  - intros e. apply keeps_catch_block.
Qed.

Lemma park_keeps kind (p : Async unit) :
  forall w, keeps_session p ->
  let '(w', slot, status) := park kind (advance p w) in
  session (auth w') = session (auth w)
  /\ forall t, slot = Some t -> keeps_session (snd t).
Proof.
  induction p as [[] | e | a k IH | call k IH | k IH]; simpl; intros w Hk.
  - split; [reflexivity | discriminate].
  - split; [reflexivity | discriminate].
  - destruct Hk as [Ha Hk]. specialize (IH (apply a w) Hk).
    destruct (park kind (advance k (apply a w))) as [[w' slot] status].
    destruct IH as [Hs IH]. split; [|exact IH].
    rewrite Hs. destruct a; simpl; try reflexivity. by destruct (Ha s).
  - split; [reflexivity|]. intros t [= <-]. exact Hk.
  - split; [reflexivity|]. intros t [= <-]. exact Hk.
Qed.

Lemma launch_keeps kind p sys :
  quiet_pool sys -> keeps_session p ->
  quiet_pool (fst (launch kind p sys))
  /\ session (auth (world (fst (launch kind p sys)))) = session (auth (world sys)).
Proof.
  intros Hpool Hp. unfold launch.
  pose proof (park_keeps kind p (world sys) Hp) as H.
  destruct (park kind (advance p (world sys))) as [[w' slot] status].
  cbn [fst world pool]. destruct H as [Hs Hslot]. split; [|exact Hs].
  intros i t Hi. cbn [pool] in Hi.
  apply lookup_snoc_Some in Hi as [Hi | [_ Hi]]; [eauto|]. by apply Hslot.
Qed.

Lemma continue_keeps i kind p sys :
  quiet_pool sys -> keeps_session p ->
  quiet_pool (fst (continue i kind p sys))
  /\ session (auth (world (fst (continue i kind p sys)))) = session (auth (world sys)).
Proof.
  intros Hpool Hp. unfold continue.
  pose proof (park_keeps kind p (world sys) Hp) as H.
  destruct (park kind (advance p (world sys))) as [[w' slot] status].
  cbn [fst world pool]. destruct H as [Hs Hslot]. split; [|exact Hs].
  intros j t Hj. cbn [pool] in Hj.
  destruct (decide (j = i)) as [-> | Hne].
  - destruct (decide (i < length (pool sys))) as [Hlt | Hge].
    + rewrite list_lookup_insert_eq in Hj by exact Hlt. injection Hj as Hj.
      by apply Hslot.
    + rewrite list_insert_ge in Hj by lia. eauto.
  - rewrite list_lookup_insert_ne in Hj by auto. eauto.
Qed.

Lemma keeps_refreshUser s : keeps_session (refreshUser s).
Proof.
  destruct s as [s|]; [|exact I].
  apply keeps_await_async, keeps_fetchUserProfile.
Qed.

Lemma some_pair {A B : Type} (x : A * B) a b : Some x = Some (a, b) -> a = fst x.
Proof. intros [= ->]. reflexivity. Qed.

Lemma step_keeps inp sys sys' status :
  quiet_pool sys -> inp <> CallLogout -> step inp sys = Some (sys', status) ->
  quiet_pool sys'
  /\ session (auth (world sys')) = last_event [inp] (session (auth (world sys))).
Proof.
  intros Hpool Hinp Hstep.
  destruct inp as [ev s | | e p | e p n | | i o]; cbn [step last_event] in *.
  - destruct (handler_writes_session_once ev s) as (rest & Heq & Hrest).
    rewrite Heq in Hstep. apply some_pair in Hstep.
    change (launch Handler (Console LOG "[Auth] Auth state changed:" ;; SetSession s ;; rest) sys)
      with (launch Handler rest
              {| world := apply (SetSession s)
                            (apply (Console LOG "[Auth] Auth state changed:") (world sys));
                 pool := pool sys |}) in Hstep.
    subst sys'. by apply launch_keeps.
  - congruence.
  - apply some_pair in Hstep; subst sys'. apply launch_keeps; [exact Hpool|].
    apply keeps_bind; [apply stateless_keeps, stateless_login | intros; exact I].
  - apply some_pair in Hstep; subst sys'. apply launch_keeps; [exact Hpool|].
    apply keeps_bind; [apply stateless_keeps, stateless_signup | intros; exact I].
  - apply some_pair in Hstep; subst sys'. apply launch_keeps; [exact Hpool|].
    apply keeps_refreshUser.
  - destruct (pool sys !! i) as [[[kind [r | e | a k | c k | k]]|]|] eqn:Hi;
      try discriminate.
    + destruct (fits c o) as [x|]; [|discriminate].
      apply some_pair in Hstep; subst sys'. apply continue_keeps; [exact Hpool|].
      apply (Hpool i _ Hi).
    + destruct o; try discriminate.
      apply some_pair in Hstep; subst sys'. apply continue_keeps; [exact Hpool|].
      apply (Hpool i _ Hi).
Qed.

(** X29.  From a state in which no call in flight will write the
    [session] cell, and as long as [logout] is not called, the [session]
    cell after any schedule is the session of the last event delivered,
    in whatever order the profile fetches end; the pool stays as
    required. *)
Theorem session_follows_last_event (inps : list Input) :
  forall sys sys',
    quiet_pool sys -> CallLogout ∉ inps -> exec inps sys = Some sys' ->
    session (auth (world sys')) = last_event inps (session (auth (world sys)))
    /\ quiet_pool sys'.
Proof.
  induction inps as [|inp rest IH]; intros sys sys' Hpool Hno Hexec.
  - injection Hexec as <-. auto.
  - cbn [exec] in Hexec.
    destruct (step inp sys) as [[sys1 status]|] eqn:Hstep; [|discriminate].
    apply not_elem_of_cons in Hno as [Hne Hno].
    destruct (step_keeps inp sys sys1 status Hpool ltac:(congruence) Hstep) as [Hq Hs].
    destruct (IH sys1 sys' Hq Hno Hexec) as [Hfin Hq'].
    split; [|exact Hq'].
    rewrite Hfin, Hs. by destruct inp.
Qed.

(** X29 at two sign-ins whose fetches end in the opposite order: the
    session is the second one, the profile the first one. *)
Lemma session_follows_last_event_witness :
  let inps := [Emit SIGNED_IN (Some sessionA); Emit SIGNED_IN (Some sessionB);
               Resume 1 (GotProfile (row bob)); Resume 1 Tick;
               Resume 0 (GotProfile (row alice)); Resume 0 Tick] in
  exists sys',
    exec inps (fresh blank) = Some sys'
    /\ session (auth (world sys')) = Some sessionB
    /\ user (auth (world sys')) = Some alice.
Proof.
  intros inps. eexists. split; [reflexivity|]. split; [|reflexivity].
  refine (proj1 (session_follows_last_event inps (fresh blank) _ _ _ eq_refl)).
  - intros i t Hi. by destruct i.
  - unfold inps. rewrite !elem_of_cons, elem_of_nil. intros H.
    repeat (destruct H as [H | H]; [discriminate|]). exact H.
Defined.
